(** * unionfs-fuse: whiteout handling and path arithmetic

    A shallow embedding of [src/string.c] and [src/general.c] and the
    properties of them that the specification states.

    Conventions of the embedding.
    - A C string is the list of its bytes before the terminating NUL
      ([cstr]); a pointer into a string is an offset.
    - [int] values are in [Z]; [unsigned int] values are in [Z] with the
      reduction modulo 2^32 written out; [size_t] lengths are in [nat] (a
      string that is in memory is shorter than 2^64 bytes, so no sum of
      lengths formed by this code wraps).
    - A store into a fixed-size buffer is checked against the capacity of the
      buffer, a read of [uopt.branches[i]] against the number of entries: a
      run that goes past either one has no defined result and ends in
      [Undefined], carrying the offending access.
    - The host file system is an interface ([Host]); [Posix] below is a small
      instance of it on which calls can be evaluated. *)

From Stdlib Require Import Ascii String ZArith Lia Bool Arith List.
Import ListNotations.

Open Scope list_scope.

(* ================================================================== *)
(** * C strings *)

Definition cstr := list ascii.

(** A string literal of the source. *)
Definition str (s : string) : cstr := list_ascii_of_string s.

Definition NUL : ascii := Ascii.zero.
Definition slash : ascii := "/"%char.

Definition strlen (s : cstr) : nat := length s.

Definition is_slash (c : ascii) : bool := Ascii.eqb c slash.

(** [prefixb n h]: the bytes of [n] are the first bytes of [h]. *)
Fixpoint prefixb (n h : cstr) : bool :=
  match n, h with
  | [], _ => true
  | x :: n', y :: h' => Ascii.eqb x y && prefixb n' h'
  | _ :: _, [] => false
  end.

(** libc [strstr]: the offset of the first occurrence of [needle] in
    [hay], [None] for the null pointer. *)
Fixpoint strstr (hay needle : cstr) : option nat :=
  if prefixb needle hay then Some 0
  else match hay with
       | [] => None
       | _ :: hay' => option_map S (strstr hay' needle)
       end.

(** libc [strrchr]: the offset of the last occurrence of [c]. *)
Fixpoint strrchr (s : cstr) (c : ascii) : option nat :=
  match s with
  | [] => None
  | x :: s' =>
      match strrchr s' c with
      | Some i => Some (S i)
      | None => if Ascii.eqb x c then Some 0 else None
      end
  end.

(* ================================================================== *)
(** * Runs *)

(** What a run can do that C gives no meaning to. *)
Inductive fault : Type :=
| StorePast (capacity index : nat)   (* a store at [index] into a buffer of [capacity] bytes *)
| BranchIndex (index : Z) (entries : nat)  (* a read of [uopt.branches[index]] *)
| LoadPast (length : nat) (index : Z).   (* a read at [index] of a buffer that holds a string of [length] bytes *)

Inductive run (A : Type) : Type :=
| Done (a : A)
| Undefined (f : fault)
| OutOfFuel.

Arguments Done {A} a.
Arguments Undefined {A} f.
Arguments OutOfFuel {A}.

Definition bind {A B : Type} (m : run A) (k : A -> run B) : run B :=
  match m with
  | Done a => k a
  | Undefined f => Undefined f
  | OutOfFuel => OutOfFuel
  end.

Notation "x <- m ;; k" := (bind m (fun x => k))
  (at level 61, m at next level, right associativity).
Notation "' pat <- m ;; k" := (bind m (fun x => match x with pat => k end))
  (at level 61, pat pattern, m at next level, right associativity).
Notation "m ;;; k" := (bind m (fun _ => k))
  (at level 61, right associativity).

(** One byte stored at [idx] into a buffer of [cap] bytes. *)
Definition store (cap idx : nat) : run unit :=
  if idx <? cap then Done tt else Undefined (StorePast cap idx).

(** [n] bytes stored from offset [pos] on ([memcpy], and [strcat] with its
    terminator counted in [n]). *)
Definition store_n (cap pos n : nat) : run unit :=
  if (n =? 0) || (pos + n <=? cap) then Done tt
  else Undefined (StorePast cap (Nat.max pos cap)).

(* ================================================================== *)
(** * errno *)

Definition EIO : Z := 5.
Definition EINVAL : Z := 22.
Definition ENAMETOOLONG : Z := 36.

(** The error taxonomy of the specification (section 7), and the error a
    negative return value stands for. *)
Inductive error : Type := InvalidArgument | NameTooLong | IOError | OwnershipError.

Definition error_of (ret : Z) : option error :=
  if (ret =? - EINVAL)%Z then Some InvalidArgument
  else if (ret =? - ENAMETOOLONG)%Z then Some NameTooLong
  else if (ret =? - EIO)%Z then Some IOError
  else None.

(* ================================================================== *)
(** * string.c *)

Section StringC.

(** [HIDETAG] of unionfs.h. *)
Variable HIDETAG : cstr.

(** [whiteout_tag]: the pointer [tag] as an offset into [fname]. *)
Definition whiteout_tag (fname : cstr) : option nat :=
  let tag := strstr fname HIDETAG in
  match tag with
  | Some t =>
      if negb (t =? 0) && (strlen (skipn t fname) =? strlen HIDETAG)
      then Some t
      else None
  | None => None
  end.

(** The loop of [build_path] over the arguments after the first.  [acc] is
    what lies between the start of the buffer and the pointer [path], so
    [path - str_ptr] is [length acc]; [len] is the variable of the source. *)
Fixpoint build_path_rest (max_len : nat) (acc : cstr) (len : nat)
         (args : list cstr) : run (Z * cstr) :=
  match args with
  | [] =>
      store max_len (length acc) ;;;           (* *path = '\0' *)
      Done (0%Z, acc)
  | arg :: rest =>
      let copy (acc : cstr) (len : nat) : run (Z * cstr) :=
        let arg_len := strlen arg in
        if max_len <? len + arg_len + 1 then
          store max_len (length acc) ;;;       (* *path = '\0' *)
          Done ((- ENAMETOOLONG)%Z, acc)
        else
          store_n max_len (length acc) arg_len ;;;
          build_path_rest max_len (acc ++ arg) (len + arg_len) rest in
      let before := last acc NUL in            (* path[-1] *)
      let first := hd NUL arg in               (* arg[0] *)
      if is_slash before && is_slash first then
        copy (removelast acc) (len - 1)
      else if negb (is_slash before) && negb (is_slash first) then
        store max_len (length acc) ;;;         (* *path = '/' *)
        copy (acc ++ [slash]) (len + 1)
      else copy acc len
  end.

(** [build_path]: [args] are the variable arguments up to the NULL that
    ends them; the result is the return value and the string left in the
    buffer. *)
Definition build_path (max_len : nat) (args : list cstr) : run (Z * cstr) :=
  store max_len 0 ;;;                          (* *path = '\0' *)
  match args with
  | [] => Done ((- EIO)%Z, [])
  | arg :: rest =>
      let arg_len := strlen arg in
      if arg_len =? 0 then Done ((- EIO)%Z, [])
      else if max_len <? 0 + arg_len + 1 then Done ((- ENAMETOOLONG)%Z, [])
      else
        store_n max_len 0 arg_len ;;;
        build_path_rest max_len arg (0 + arg_len) rest
  end.

(** [u_dirname], with [strdup] taken to succeed. *)
Definition u_dirname (path : cstr) : cstr :=
  match strrchr path slash with
  | Some ri => firstn ri path
  | None => str "."
  end.

(** [u_dirname] with its stores into the copy [strdup] returns, which holds
    [strlen path + 1] bytes: the NUL at [ri] ([*ri = 0]), or the two bytes
    that [strcpy (ret, ".")] writes at its start. *)
Definition u_dirname_run (path : cstr) : run cstr :=
  let cap := strlen path + 1 in
  match strrchr path slash with
  | Some ri => store cap ri ;;; Done (firstn ri path)
  | None => store_n cap 0 2 ;;; Done (str ".")
  end.

(** Whether plain [char] is a signed type is left to the platform. *)
Variable char_is_signed : bool.

Definition wrap32 (z : Z) : Z := z mod 2 ^ 32.

(** The value of a [char] as an [int]. *)
Definition int_of_char (c : ascii) : Z :=
  let b := Z.of_N (N_of_ascii c) in
  if char_is_signed && (128 <=? b)%Z then (b - 256)%Z else b.

(** One turn of the loop of [elfhash]. *)
Definition elfhash_step (hash : Z) (c : ascii) : Z :=
  let hash := wrap32 (wrap32 (Z.shiftl hash 4) + wrap32 (int_of_char c)) in
  let highbyte := Z.land hash 0xF0000000 in
  let hash := if (highbyte =? 0)%Z then hash
              else Z.lxor hash (Z.shiftr highbyte 24) in
  let hash := Z.land hash (wrap32 (Z.lnot highbyte)) in
  hash.

Fixpoint elfhash_loop (hash : Z) (s : cstr) : Z :=
  match s with
  | [] => hash
  | c :: s' => elfhash_loop (elfhash_step hash c) s'
  end.

Definition elfhash (s : cstr) : Z := elfhash_loop 0 s.

Definition string_hash (s : cstr) : Z := elfhash s.

End StringC.

(* ================================================================== *)
(** * The host file system *)

(** What [lstat] reports of an entry, as far as this code looks at it. *)
Record stat : Type := { st_isdir : bool; st_uid : Z; st_gid : Z }.

(** The calls [general.c] makes.  A call takes the state of the host and
    gives the state after it with its return value ([-1] on failure);
    [lstat] changes nothing and gives [None] where it returns [-1].
    [errno] is the error number the last failing call left. *)
Class Host (fsys : Type) : Type := {
  lstat : fsys -> cstr -> option stat;
  unlink : fsys -> cstr -> fsys * Z;
  rmdir : fsys -> cstr -> fsys * Z;
  mkdir : fsys -> cstr -> fsys * Z;
  open_creat : fsys -> cstr -> fsys * Z;   (* open(p, O_WRONLY | O_CREAT, 0600) *)
  close : fsys -> Z -> fsys * Z;
  lchown : fsys -> cstr -> Z -> Z -> fsys * Z;
  errno : fsys -> Z
}.

(** [filetype_t] and [enum whiteout] of unionfs.h. *)
Inductive filetype_t : Type := NOT_EXISTING | IS_DIR | IS_FILE.
Inductive whiteout : Type := WHITEOUT_FILE | WHITEOUT_DIR.

(** An entry of [uopt.branches], and [uopt], with the fields this code
    reads. *)
Record branch_entry_t : Type := { path : cstr; path_len : nat }.

Record uopt_t : Type := {
  nbranches : Z;
  branches : list branch_entry_t;
  cow_enabled : bool
}.

(** [struct fuse_context], the fields read. *)
Record fuse_context : Type := { uid : Z; gid : Z }.

(** The offsets in [s] at which a path component ends: the byte before is
    not a slash, and a slash or the end of the string follows. *)
Definition component_end (s : cstr) (i : nat) : bool :=
  negb (i =? 0)
  && negb (is_slash (nth (i - 1) s slash))
  && ((i =? length s) || is_slash (nth i s NUL)).

Definition component_ends (s : cstr) : list nat :=
  filter (component_end s) (seq 1 (length s)).

(* ================================================================== *)
(** * general.c *)

Section GeneralC.

(** [PATHLEN_MAX], [HIDETAG] and [METADIR] of unionfs.h. *)
Variable PATHLEN_MAX : nat.
Variable HIDETAG : cstr.
Variable METADIR : cstr.

Context {fsys : Type} {host : Host fsys}.

(** The global [uopt]. *)
Variable uopt : uopt_t.

(** [find_rorw_branch] of findbranch.c, which is not among the sources: the
    branch in which the path is found, or -1. *)
Variable find_rorw_branch : fsys -> cstr -> Z.

(** Modelled from the spec: the macro [BUILD_PATH] of string.h, which is
    not among the sources; every path buffer has the one fixed capacity,
    and the macro ends the arguments with NULL. *)
Definition BUILD_PATH (args : list cstr) : run (Z * cstr) :=
  build_path PATHLEN_MAX args.

(** [uopt.branches[i]]. *)
Definition branch_at (i : Z) : run branch_entry_t :=
  if (i <? 0)%Z then Undefined (BranchIndex i (length (branches uopt)))
  else match nth_error (branches uopt) (Z.to_nat i) with
       | Some b => Done b
       | None => Undefined (BranchIndex i (length (branches uopt)))
       end.

(** The loop [while ( *walk == '/') walk++], on the bytes from [walk] on. *)
Fixpoint skip_slashes_from (rest : cstr) (walk : nat) : nat :=
  match rest with
  | c :: rest' => if is_slash c then skip_slashes_from rest' (S walk) else walk
  | [] => walk
  end.

Definition skip_slashes (buf : cstr) (walk : nat) : nat :=
  skip_slashes_from (skipn walk buf) walk.

(** The loop [while ( *walk != 0 && *walk != '/') walk++]. *)
Fixpoint skip_name_from (rest : cstr) (walk : nat) : nat :=
  match rest with
  | c :: rest' => if is_slash c then walk else skip_name_from rest' (S walk)
  | [] => walk
  end.

Definition skip_name (buf : cstr) (walk : nat) : nat :=
  skip_name_from (skipn walk buf) walk.

(** [filedir_hidden].  When [length] is past the terminator of [path] the
    first [memcpy] copies the terminator too, and the string in [p] is
    [path]. *)
Definition filedir_hidden (s : fsys) (path : cstr) (length : nat) : run Z :=
  if negb (cow_enabled uopt) then Done 0%Z
  else
    let tag_length := strlen HIDETAG in
    let length := if length =? 0 then strlen path else length in
    if PATHLEN_MAX <=? length + tag_length then Done (- ENAMETOOLONG)%Z
    else
      store_n PATHLEN_MAX 0 length ;;;
      store_n PATHLEN_MAX length tag_length ;;;
      store PATHLEN_MAX (length + tag_length) ;;;
      let p := if strlen path <? length then path
               else firstn length path ++ HIDETAG in
      match lstat s p with
      | Some _ => Done 1%Z
      | None => Done 0%Z
      end.

(** The [do ... while] of [path_hidden]; every turn but the first moves
    [walk] on, so the length of the buffer bounds the turns. *)
Fixpoint path_hidden_loop (fuel : nat) (s : fsys) (whiteoutpath : cstr)
         (walk : nat) : run Z :=
  match fuel with
  | O => OutOfFuel
  | S fuel' =>
      let walk := skip_name whiteoutpath walk in
      res <- filedir_hidden s whiteoutpath walk ;;
      if negb (res =? 0)%Z then Done res
      else
        let walk := skip_slashes whiteoutpath walk in
        if walk <? strlen whiteoutpath     (* *walk != '\0' *)
        then path_hidden_loop fuel' s whiteoutpath walk
        else Done 0%Z
  end.

(** [path_hidden].  [walk] is set to [path_len + strlen (METADIR) - 1]
    bytes behind the start of the buffer, and the byte there is read: that
    has a meaning when the offset is not negative and not behind the
    terminator of the string that [BUILD_PATH] left.  From there on [walk]
    stops at the terminator. *)
Definition path_hidden (s : fsys) (upath : cstr) (branch : Z) : run Z :=
  if negb (cow_enabled uopt) then Done 0%Z
  else
    b <- branch_at branch ;;
    ' (r, whiteoutpath) <- BUILD_PATH [path b; METADIR; upath] ;;
    if negb (r =? 0)%Z then Done 0%Z
    else
      let walk := path_len b + strlen METADIR - 1 in
      if (path_len b + strlen METADIR =? 0) || (strlen whiteoutpath <? walk)
      then Undefined (LoadPast (strlen whiteoutpath)
                               (Z.of_nat (path_len b + strlen METADIR) - 1))
      else
        let walk := skip_slashes whiteoutpath walk in
        path_hidden_loop (S (strlen whiteoutpath)) s whiteoutpath walk.

(** [path_is_dir]. *)
Definition path_is_dir (s : fsys) (p : cstr) : filetype_t :=
  match lstat s p with
  | None => NOT_EXISTING
  | Some st => if st_isdir st then IS_DIR else IS_FILE
  end.

(** The [for] of [remove_hidden]: [n] turns are left, the next one for
    branch [i]. *)
Fixpoint remove_hidden_loop (n : nat) (i : Z) (upath : cstr) (s : fsys)
  : run (Z * fsys) :=
  match n with
  | O => Done (0%Z, s)
  | S n' =>
      b <- branch_at i ;;
      ' (r, p) <- BUILD_PATH [path b; METADIR; upath] ;;
      if negb (r =? 0)%Z then Done ((- ENAMETOOLONG)%Z, s)
      else if PATHLEN_MAX <? strlen p + strlen HIDETAG
      then Done ((- ENAMETOOLONG)%Z, s)
      else
        store_n PATHLEN_MAX (strlen p) (strlen HIDETAG + 1) ;;;   (* strcat *)
        let p := p ++ HIDETAG in
        match path_is_dir s p with
        | IS_FILE => remove_hidden_loop n' (i + 1)%Z upath (fst (unlink s p))
        | IS_DIR => remove_hidden_loop n' (i + 1)%Z upath (fst (rmdir s p))
        | NOT_EXISTING => remove_hidden_loop n' (i + 1)%Z upath s
        end
  end.

(** [remove_hidden]: [i] runs over [0 <= i <= maxbranch]. *)
Definition remove_hidden (s : fsys) (upath : cstr) (maxbranch : Z)
  : run (Z * fsys) :=
  if negb (cow_enabled uopt) then Done (0%Z, s)
  else
    let maxbranch := if (maxbranch =? -1)%Z then nbranches uopt else maxbranch in
    remove_hidden_loop (Z.to_nat (maxbranch + 1)) 0%Z upath s.

(** Modelled from the spec: the walk of [path_create_cutlast] of cow.c,
    which is not among the sources.  It "ensures the Metadata Tree
    directories along that path exist, creating any missing ones": of the
    directories [dname] lies in, each up to the end of one of its components
    [ends], every one that is missing under [root] is made, the outermost
    first. *)
Fixpoint path_create_dirs (root dname : cstr) (ends : list nat) (s : fsys)
  : fsys :=
  match ends with
  | [] => s
  | e :: ends' =>
      match BUILD_PATH [root; firstn e dname] with
      | Done (0%Z, p) =>
          match lstat s p with
          | Some _ => path_create_dirs root dname ends' s
          | None => path_create_dirs root dname ends' (fst (mkdir s p))
          end
      | _ => s
      end
  end.

(** Modelled from the spec: [path_create_cutlast] of cow.c, which is not
    among the sources: the directories of [upath] without its last component
    are made in the branch [nbranch_rw]. *)
Definition path_create_cutlast (s : fsys) (upath : cstr)
           (nbranch_ro nbranch_rw : Z) : run fsys :=
  b <- branch_at nbranch_rw ;;
  let dname := u_dirname upath in
  Done (path_create_dirs (path b) dname (component_ends dname) s).

(** [do_create_whiteout]. *)
Definition do_create_whiteout (s : fsys) (upath : cstr) (branch_rw : Z)
           (mode : whiteout) : run (Z * fsys) :=
  ' (r, metapath) <- BUILD_PATH [METADIR; upath] ;;
  if negb (r =? 0)%Z then Done ((-1)%Z, s)
  else
    s <- path_create_cutlast s metapath branch_rw branch_rw ;;
    b <- branch_at branch_rw ;;
    ' (r, p) <- BUILD_PATH [path b; metapath] ;;
    if negb (r =? 0)%Z then Done ((-1)%Z, s)
    else
      store_n PATHLEN_MAX (strlen p) (strlen HIDETAG + 1) ;;;     (* strcat *)
      let p := p ++ HIDETAG in
      match mode with
      | WHITEOUT_FILE =>
          let (s, res) := open_creat s p in
          if (res =? -1)%Z then Done ((-1)%Z, s)
          else let (s, res) := close s res in Done (res, s)
      | WHITEOUT_DIR =>
          let (s, res) := mkdir s p in
          Done (res, s)
      end.

(** [hide_file] and [hide_dir]. *)
Definition hide_file (s : fsys) (upath : cstr) (branch_rw : Z) : run (Z * fsys) :=
  do_create_whiteout s upath branch_rw WHITEOUT_FILE.

Definition hide_dir (s : fsys) (upath : cstr) (branch_rw : Z) : run (Z * fsys) :=
  do_create_whiteout s upath branch_rw WHITEOUT_DIR.

(** [maybe_whiteout]. *)
Definition maybe_whiteout (s : fsys) (upath : cstr) (branch_rw : Z)
           (mode : whiteout) : run (Z * fsys) :=
  if negb (find_rorw_branch s upath =? -1)%Z
  then do_create_whiteout s upath branch_rw mode
  else Done (0%Z, s).

(** [set_owner]; [ctx] is what [fuse_get_context] gives. *)
Definition set_owner (ctx : fuse_context) (s : fsys) (upath : cstr) : Z * fsys :=
  if negb (uid ctx =? 0)%Z && negb (gid ctx =? 0)%Z then
    let (s, res) := lchown s upath (uid ctx) (gid ctx) in
    if negb (res =? 0)%Z then ((- errno s)%Z, s)
    else (0%Z, s)
  else (0%Z, s).

End GeneralC.

(* ================================================================== *)
(** * A host to evaluate on *)

(** A small model of a POSIX file system: the entries by the list of their
    path components, each a directory or a regular file with an owner.  It
    has no permissions, links, or "." and ".." entries; what it creates
    belongs to the identity of the daemon, which is root. *)
Module Posix.

Definition ENOENT : Z := 2.
Definition EEXIST : Z := 17.
Definition ENOTDIR : Z := 20.
Definition EISDIR : Z := 21.
Definition ENOTEMPTY : Z := 39.
Definition EBUSY : Z := 16.

Definition key := list cstr.

Definition key_eq_dec : forall a b : key, {a = b} + {a <> b} :=
  list_eq_dec (list_eq_dec ascii_dec).

Definition push (cur : cstr) (rest : key) : key :=
  match cur with [] => rest | _ :: _ => cur :: rest end.

(** [split s]: the bytes of [s] before its first slash, and the components
    after that slash. *)
Fixpoint split (s : cstr) : cstr * key :=
  match s with
  | [] => ([], [])
  | c :: s' =>
      let (cur, rest) := split s' in
      if is_slash c then ([], push cur rest) else (c :: cur, rest)
  end.

(** The components of a path: slashes separate, runs of slashes count as
    one. *)
Definition comps (s : cstr) : key :=
  let (cur, rest) := split s in push cur rest.

Record state : Type := { entries : list (key * stat); last_errno : Z }.

Definition root_stat : stat := {| st_isdir := true; st_uid := 0; st_gid := 0 |}.
Definition new_dir : stat := {| st_isdir := true; st_uid := 0; st_gid := 0 |}.
Definition new_file : stat := {| st_isdir := false; st_uid := 0; st_gid := 0 |}.

Fixpoint find (k : key) (es : list (key * stat)) : option stat :=
  match es with
  | [] => None
  | (k', v) :: es' => if key_eq_dec k k' then Some v else find k es'
  end.

Definition lookup (es : list (key * stat)) (k : key) : option stat :=
  match k with
  | [] => Some root_stat
  | _ :: _ => find k es
  end.

Definition is_dir (es : list (key * stat)) (k : key) : bool :=
  match lookup es k with
  | Some st => st_isdir st
  | None => false
  end.

Definition remove (k : key) (es : list (key * stat)) : list (key * stat) :=
  filter (fun e => if key_eq_dec k (fst e) then false else true) es.

Definition has_child (es : list (key * stat)) (k : key) : bool :=
  existsb (fun e => match fst e with
                    | [] => false
                    | _ :: _ => if key_eq_dec (removelast (fst e)) k then true else false
                    end) es.

Definition fail (s : state) (e : Z) : state * Z :=
  ({| entries := entries s; last_errno := e |}, (-1)%Z).

Definition add (s : state) (k : key) (v : stat) : state :=
  {| entries := (k, v) :: entries s; last_errno := last_errno s |}.

Definition del (s : state) (k : key) : state :=
  {| entries := remove k (entries s); last_errno := last_errno s |}.

Definition p_lstat (s : state) (p : cstr) : option stat :=
  lookup (entries s) (comps p).

Definition p_mkdir (s : state) (p : cstr) : state * Z :=
  let k := comps p in
  match lookup (entries s) k with
  | Some _ => fail s EEXIST
  | None =>
      if is_dir (entries s) (removelast k) then (add s k new_dir, 0%Z)
      else fail s ENOENT
  end.

Definition p_open_creat (s : state) (p : cstr) : state * Z :=
  let k := comps p in
  match lookup (entries s) k with
  | Some st => if st_isdir st then fail s EISDIR else (s, 3%Z)
  | None =>
      if is_dir (entries s) (removelast k) then (add s k new_file, 3%Z)
      else fail s ENOENT
  end.

Definition p_close (s : state) (fd : Z) : state * Z := (s, 0%Z).

Definition p_unlink (s : state) (p : cstr) : state * Z :=
  let k := comps p in
  match k, lookup (entries s) k with
  | [], _ => fail s EISDIR
  | _, None => fail s ENOENT
  | _, Some st => if st_isdir st then fail s EISDIR else (del s k, 0%Z)
  end.

Definition p_rmdir (s : state) (p : cstr) : state * Z :=
  let k := comps p in
  match k, lookup (entries s) k with
  | [], _ => fail s EBUSY
  | _, None => fail s ENOENT
  | _, Some st =>
      if st_isdir st then
        if has_child (entries s) k then fail s ENOTEMPTY else (del s k, 0%Z)
      else fail s ENOTDIR
  end.

Definition p_lchown (s : state) (p : cstr) (u g : Z) : state * Z :=
  let k := comps p in
  match k, lookup (entries s) k with
  | [], _ => fail s EBUSY
  | _, None => fail s ENOENT
  | _, Some st =>
      (add (del s k) k {| st_isdir := st_isdir st; st_uid := u; st_gid := g |}, 0%Z)
  end.

#[global] Instance posix_host : Host state := {|
  lstat := p_lstat;
  unlink := p_unlink;
  rmdir := p_rmdir;
  mkdir := p_mkdir;
  open_creat := p_open_creat;
  close := p_close;
  lchown := p_lchown;
  errno := last_errno
|}.

(** Every entry lies in a directory. *)
Definition wf (es : list (key * stat)) : bool :=
  forallb (fun e => match fst e with
                    | [] => false
                    | _ :: _ => is_dir es (removelast (fst e))
                    end) es.

End Posix.

(* ================================================================== *)
(** * The same host, mounted read-only *)

(** What is there can be looked at; a call that fails on the model above
    fails here in the same way, and a call that would change something
    fails with [EROFS] and changes nothing.  No descriptor can be open for
    writing, so [close] fails with [EBADF]. *)
Module Rofs.

Definition EROFS : Z := 30.
Definition EBADF : Z := 9.

Record state : Type := { under : Posix.state }.

Definition refused (s : Posix.state) (call : Posix.state * Z) : state * Z :=
  if (snd call =? -1)%Z then ({| under := fst call |}, (-1)%Z)
  else ({| under := fst (Posix.fail s EROFS) |}, (-1)%Z).

#[global] Instance rofs_host : Host state := {|
  lstat := fun s p => Posix.p_lstat (under s) p;
  unlink := fun s p => refused (under s) (Posix.p_unlink (under s) p);
  rmdir := fun s p => refused (under s) (Posix.p_rmdir (under s) p);
  mkdir := fun s p => refused (under s) (Posix.p_mkdir (under s) p);
  open_creat := fun s p => refused (under s) (Posix.p_open_creat (under s) p);
  close := fun s fd => ({| under := fst (Posix.fail (under s) EBADF) |}, (-1)%Z);
  lchown := fun s p u g => refused (under s) (Posix.p_lchown (under s) p u g);
  errno := fun s => Posix.last_errno (under s)
|}.

End Rofs.

(* ================================================================== *)
(** * The constants of unionfs.h, and a mount to evaluate on

    The header is not among the sources; these are the values it gives
    upstream.  The theorems below hold for every choice of them, the
    examples are evaluated with these. *)

Module Mount.

Definition PATHLEN_MAX : nat := 1024.
Definition HIDETAG : cstr := str "_HIDDEN~".
Definition METADIR : cstr := str ".unionfs/".

Definition branch (p : string) : branch_entry_t :=
  {| path := str p; path_len := strlen (str p) |}.

(** Two branches, [/rw/] above [/ro/], copy-on-write on. *)
Definition uopt : uopt_t :=
  {| nbranches := 2;
     branches := [branch "/rw/"; branch "/ro/"];
     cow_enabled := true |}.

Definition dir (k : Posix.key) : Posix.key * stat := (k, Posix.new_dir).
Definition file (k : Posix.key) : Posix.key * stat := (k, Posix.new_file).

(** The branch roots, and [/ro/note.txt]. *)
Definition fs0 : Posix.state :=
  {| Posix.entries := [dir [str "rw"]; dir [str "ro"]; file [str "ro"; str "note.txt"]];
     Posix.last_errno := 0 |}.

(** A name of [n] bytes. *)
Definition long_name (n : nat) : cstr := repeat "a"%char n.

(** A union path of 1004 bytes, four components of 250 bytes each. *)
Definition deep : cstr := concat (repeat (slash :: long_name 250) 4).

(** The same with a fifth component, 1255 bytes. *)
Definition deeper : cstr := concat (repeat (slash :: long_name 250) 5).

(** [fs0] with the marker of [/dir], a directory, in the metadata tree of
    [/rw/]. *)
Definition fs1 : Posix.state :=
  {| Posix.entries :=
       [dir [str "rw"; str ".unionfs"; str "dir" ++ HIDETAG];
        dir [str "rw"; str ".unionfs"];
        dir [str "rw"]; dir [str "ro"]; file [str "ro"; str "note.txt"]];
     Posix.last_errno := 0 |}.

(** [fs0] with the markers of [/note.txt]: a file in the metadata tree of
    [/rw/], a directory in that of [/ro/]. *)
Definition fs2 : Posix.state :=
  {| Posix.entries :=
       [file [str "rw"; str ".unionfs"; str "note.txt" ++ HIDETAG];
        dir [str "rw"; str ".unionfs"];
        dir [str "ro"; str ".unionfs"; str "note.txt" ++ HIDETAG];
        dir [str "ro"; str ".unionfs"];
        dir [str "rw"]; dir [str "ro"]; file [str "ro"; str "note.txt"]];
     Posix.last_errno := 0 |}.

(** [fs0] with the marker that [hide_dir] makes for [/dir/], the path with
    a slash at its end: the tag alone, in [/rw/.unionfs/dir]. *)
Definition fs3 : Posix.state :=
  {| Posix.entries :=
       [dir [str "rw"; str ".unionfs"; str "dir"; HIDETAG];
        dir [str "rw"; str ".unionfs"; str "dir"];
        dir [str "rw"; str ".unionfs"];
        dir [str "rw"]; dir [str "ro"]; file [str "ro"; str "note.txt"]];
     Posix.last_errno := 0 |}.

(** Union paths under [/dir]: of 1008 bytes, which [/rw/.unionfs] before it
    and the tag behind it make 1028; and of 1259 bytes.  No name in them
    has more than 250 bytes. *)
Definition dir_deep : cstr := str "/dir" ++ deep.
Definition dir_deeper : cstr := str "/dir" ++ deeper.


End Mount.

(* ================================================================== *)
(** * The notions of the specification *)

(** The tag occurs in [name] at offset [j]. *)
Definition occurs_at (tag name : cstr) (j : nat) : Prop :=
  firstn (length tag) (skipn j name) = tag.

(** [name] ends with the tag, which starts at offset [i]; there is something
    before it; and the first place at which the tag occurs in [name] is [i],
    so that what is matched is the tag and no more. *)
Definition tag_suffix (tag name : cstr) (i : nat) : Prop :=
  name = firstn i name ++ tag /\ 0 < i /\ forall j, j < i -> ~ occurs_at tag name j.

(** The hash as section 4.2 words it, on the values [c] of the input: shift
    and add in 32 bits; when the top four bits are not zero, fold them in 24
    bits lower and clear them. *)
Definition elf_step (hash c : Z) : Z :=
  let hash := ((Z.shiftl hash 4 + c) mod 2 ^ 32)%Z in
  let high := Z.land hash 0xF0000000 in
  if (high =? 0)%Z then hash
  else Z.ldiff (Z.lxor hash (Z.shiftr high 24)) high.

Definition elf_hash (cs : list Z) : Z := fold_left elf_step cs 0%Z.

(** An input byte as a number, 0 to 255. *)
Definition byte_value (c : ascii) : Z := Z.of_N (N_of_ascii c).

(** Two segments joined by one slash: a slash that both bring is kept
    once, a slash that neither brings is added. *)
Definition join (a b : cstr) : cstr :=
  if is_slash (last a NUL) && is_slash (hd NUL b) then removelast a ++ b
  else if negb (is_slash (last a NUL)) && negb (is_slash (hd NUL b))
       then a ++ slash :: b
       else a ++ b.

(** [q] is [p] up to the end of one of its components. *)
Definition ancestor_prefix (q p : cstr) : Prop :=
  exists i, component_end p i = true /\ q = firstn i p.

(** The string ends with a slash, as the roots of the branches and [METADIR]
    do. *)
Definition ends_with_slash (a : cstr) : bool := is_slash (last a NUL).

(** The string has no slash in it, as a name has none. *)
Definition no_slash (a : cstr) : bool := forallb (fun c => negb (is_slash c)) a.

(** No slash in the string is followed by a slash. *)
Fixpoint no_double_slash (a : cstr) : bool :=
  match a with
  | [] => true
  | x :: a' => negb (is_slash x && is_slash (hd NUL a')) && no_double_slash a'
  end.

(** The string read as a number in base 16, its bytes the digits. *)
Definition base16 (s : cstr) : Z :=
  fold_left (fun h c => (h * 16 + byte_value c)%Z) s 0%Z.

Section Notions.

Variable PATHLEN_MAX : nat.
Variable HIDETAG : cstr.
Variable METADIR : cstr.

Context {fsys : Type} {host : Host fsys}.

(** The path of the marker of [upath] in a branch; none when the name is
    too long for a path buffer. *)
Definition marker_path (b : branch_entry_t) (upath : cstr) : option cstr :=
  match build_path PATHLEN_MAX [path b; METADIR; upath] with
  | Done (0%Z, p) =>
      if strlen p + strlen HIDETAG <? PATHLEN_MAX then Some (p ++ HIDETAG)
      else None
  | _ => None
  end.

(** Building the marker path stays inside the path buffers. *)
Definition marker_defined (b : branch_entry_t) (upath : cstr) : bool :=
  match build_path PATHLEN_MAX [path b; METADIR; upath] with
  | Done (r, p) =>
      if (r =? 0)%Z then negb (strlen p + strlen HIDETAG =? PATHLEN_MAX)
      else true
  | _ => false
  end.

(** The marker of a union path in a branch, as sections 3 and 4.3 word it:
    the root of the branch, the name of the metadata tree and the path,
    joined by single slashes, with the tag behind the name. *)
Definition marker_of (b : branch_entry_t) (upath : cstr) : cstr :=
  join (join (path b) METADIR) upath ++ HIDETAG.

(** Where the code builds the marker path inside its buffers: the root of
    the branch is not empty and leaves, joined with [METADIR], two bytes of
    a path buffer, and the marker path is not just as long as the buffer. *)
Definition in_buffers (upath : cstr) (b : branch_entry_t) : Prop :=
  path b <> []
  /\ length (join (path b) METADIR) + 1 < PATHLEN_MAX
  /\ length (marker_of b upath) <> PATHLEN_MAX.

(** The cleanup of section 4.3 over the branches [bs], the highest ranked
    first: a marker that is a file is unlinked, one that is a directory is
    removed as a directory, a missing one is passed over, whether the
    deletion worked is not looked at, and a marker path that does not fit in
    a path buffer with its terminator ends it at once with that error. *)
Fixpoint cleanup (bs : list branch_entry_t) (upath : cstr) (s : fsys) : Z * fsys :=
  match bs with
  | [] => (0%Z, s)
  | b :: bs' =>
      let m := marker_of b upath in
      if PATHLEN_MAX <=? length m then ((- ENAMETOOLONG)%Z, s)
      else
        match lstat s m with
        | None => cleanup bs' upath s
        | Some st =>
            if st_isdir st then cleanup bs' upath (fst (rmdir s m))
            else cleanup bs' upath (fst (unlink s m))
        end
  end.

End Notions.

(* ================================================================== *)
(** * string.c: the hash *)

Section Hash.

Variable char_is_signed : bool.

Lemma wrap32_range z : (0 <= wrap32 z < 2 ^ 32)%Z.
Proof. unfold wrap32. apply Z.mod_pos_bound. reflexivity. Qed.

Lemma wrap32_high_bits z n : (32 <= n)%Z -> Z.testbit (wrap32 z) n = false.
Proof. intros Hn. unfold wrap32. apply Z.mod_pow2_bits_high. lia. Qed.

Lemma wrap32_low_bits z n : (0 <= n < 32)%Z -> Z.testbit (wrap32 z) n = Z.testbit z n.
Proof. intros Hn. unfold wrap32. apply Z.mod_pow2_bits_low. lia. Qed.

(** Clearing with the 32-bit complement is clearing, on a 32-bit value. *)
Lemma land_lnot32 x g :
  (forall n, (32 <= n)%Z -> Z.testbit x n = false) ->
  Z.land x (wrap32 (Z.lnot g)) = Z.ldiff x g.
Proof.
  intros Hx. apply Z.bits_inj'. intros n Hn.
  rewrite Z.land_spec, Z.ldiff_spec.
  destruct (Z.lt_ge_cases n 32) as [Hlt | Hge].
  - rewrite wrap32_low_bits by lia. now rewrite Z.lnot_spec by lia.
  - rewrite (Hx n Hge). reflexivity.
Qed.

Lemma elfhash_step_elf hash c :
  elfhash_step char_is_signed hash c = elf_step hash (int_of_char char_is_signed c).
Proof.
  unfold elfhash_step, elf_step.
  set (ci := int_of_char char_is_signed c).
  assert (Hsum : wrap32 (wrap32 (Z.shiftl hash 4) + wrap32 ci)
                 = ((Z.shiftl hash 4 + ci) mod 2 ^ 32)%Z).
  { unfold wrap32. symmetry. apply Z.add_mod. discriminate. }
  rewrite Hsum.
  fold (wrap32 (Z.shiftl hash 4 + ci)).
  set (h := wrap32 (Z.shiftl hash 4 + ci)).
  set (g := Z.land h 4026531840).
  destruct (Z.eqb_spec g 0) as [Hg | Hg].
  - rewrite Hg. rewrite land_lnot32 by (intros; apply wrap32_high_bits; assumption).
    apply Z.bits_inj'. intros n _. rewrite Z.ldiff_spec, Z.bits_0.
    now rewrite andb_true_r.
  - apply land_lnot32. intros n Hn.
    rewrite Z.lxor_spec, Z.shiftr_spec by lia.
    unfold g, h. rewrite Z.land_spec, !wrap32_high_bits by lia. reflexivity.
Qed.

Lemma elfhash_loop_elf s hash :
  elfhash_loop char_is_signed hash s
  = fold_left elf_step (map (int_of_char char_is_signed) s) hash.
Proof.
  revert hash. induction s as [| c s IH]; intros hash; simpl.
  - reflexivity.
  - rewrite IH, elfhash_step_elf. reflexivity.
Qed.

End Hash.

Lemma int_of_char_byte sg c :
  negb sg || (byte_value c <? 128)%Z = true -> int_of_char sg c = byte_value c.
Proof.
  unfold int_of_char, byte_value. intros H.
  destruct sg; cbn [negb orb andb] in *; [| reflexivity].
  destruct (Z.ltb_spec (Z.of_N (N_of_ascii c)) 128) as [Hlt | ?]; [| discriminate].
  destruct (Z.leb_spec 128 (Z.of_N (N_of_ascii c))); [lia | reflexivity].
Qed.

(** C8, as the code has it.  [string_hash] is the hash of section 4.2 taken
    over the values [c] that the bytes of the string have as plain [char]s,
    whatever the signedness of [char]; these values are the bytes themselves
    where [char] is unsigned, and for every string without a byte above 0x7F.
    It gives 0, 97 and 1650 on the empty string, on "a" and on "ab". *)
Theorem string_hash_is_elf_hash :
  forall (char_is_signed : bool) (s : cstr),
    string_hash char_is_signed s = elf_hash (map (int_of_char char_is_signed) s)
    /\ (if negb char_is_signed || forallb (fun c => (byte_value c <? 128)%Z) s
        then string_hash char_is_signed s = elf_hash (map byte_value s)
        else True)
    /\ string_hash char_is_signed (str "") = 0%Z
    /\ string_hash char_is_signed (str "a") = 97%Z
    /\ string_hash char_is_signed (str "ab") = 1650%Z.
Proof.
  intros sg s.
  assert (Hgen : string_hash sg s = elf_hash (map (int_of_char sg) s)).
  { unfold string_hash, elfhash, elf_hash. apply elfhash_loop_elf. }
  split; [exact Hgen |]. split.
  - destruct (negb sg || forallb (fun c => (byte_value c <? 128)%Z) s) eqn:E;
      [| exact I].
    rewrite Hgen. f_equal. apply map_ext_in. intros c Hc. apply int_of_char_byte.
    destruct sg; cbn [negb orb] in *; [| reflexivity].
    rewrite forallb_forall in E. now apply E.
  - destruct sg; repeat split; reflexivity.
Qed.

(** C8 fails as stated where plain [char] is signed: the byte 0x80 is added
    as -128, and the hash of the one-byte string is not the hash of section
    4.2 of the byte. *)
Lemma string_hash_signed_high_byte :
  string_hash true [ascii_of_nat 128] = 0x0FFFFF70%Z
  /\ elf_hash (map byte_value [ascii_of_nat 128]) = 128%Z
  /\ string_hash true [ascii_of_nat 128] <> elf_hash (map byte_value [ascii_of_nat 128]).
Proof. repeat split; discriminate. Qed.

(* ================================================================== *)
(** * string.c: the tag *)

Lemma ascii_eqb_eq a b : Ascii.eqb a b = true <-> a = b.
Proof. apply Ascii.eqb_eq. Qed.

Lemma prefixb_firstn n h : prefixb n h = true <-> firstn (length n) h = n.
Proof.
  revert h. induction n as [| x n IH]; intros h; simpl.
  - split; reflexivity.
  - destruct h as [| y h]; simpl.
    + split; discriminate.
    + rewrite andb_true_iff, ascii_eqb_eq, IH. split.
      * intros [-> ->]. reflexivity.
      * intros E. injection E as -> E. rewrite E. split; reflexivity.
Qed.

Lemma prefixb_occurs tag name j :
  prefixb tag (skipn j name) = true <-> occurs_at tag name j.
Proof. apply prefixb_firstn. Qed.

(** [strstr] finds the first occurrence. *)
Lemma strstr_some hay needle i :
  strstr hay needle = Some i <->
  i <= length hay /\ occurs_at needle hay i /\ forall j, j < i -> ~ occurs_at needle hay j.
Proof.
  revert i. induction hay as [| c hay IH]; intros i.
  - simpl. destruct (prefixb needle []) eqn:E.
    + split.
      * intros [= <-]. repeat split; [lia | apply prefixb_occurs; exact E | lia].
      * intros (Hi & _ & _). simpl in Hi. f_equal. lia.
    + split; [discriminate |].
      intros (Hi & Ho & _). simpl in Hi. assert (i = 0) as -> by lia.
      apply prefixb_occurs in Ho. simpl in Ho. congruence.
  - cbn [strstr]. destruct (prefixb needle (c :: hay)) eqn:E.
    + split.
      * intros [= <-]. repeat split; [simpl; lia | apply prefixb_occurs; exact E | lia].
      * intros (_ & _ & Hfirst). destruct i as [| i]; [reflexivity |].
        exfalso. apply (Hfirst 0); [lia |]. apply prefixb_occurs. exact E.
    + destruct (strstr hay needle) as [k |]; cbn [option_map].
      * split.
        -- intros [= <-]. destruct (proj1 (IH k) eq_refl) as (Hk & Ho & Hfirst).
           repeat split; [simpl; lia | exact Ho |].
           intros [| j] Hj.
           ++ intros Ho0. apply prefixb_occurs in Ho0. simpl in Ho0. congruence.
           ++ apply Hfirst. lia.
        -- intros (Hi & Ho & Hfirst). destruct i as [| i].
           ++ apply prefixb_occurs in Ho. simpl in Ho. congruence.
           ++ f_equal.
              assert (Hs : Some k = Some i).
              { apply IH. repeat split; [simpl in Hi; lia | exact Ho |].
                intros j Hj. apply (Hfirst (S j)). lia. }
              congruence.
      * split; [discriminate |].
        intros (Hi & Ho & Hfirst). destruct i as [| i].
        -- apply prefixb_occurs in Ho. simpl in Ho. congruence.
        -- assert (Hs : None = Some i).
           { apply IH. repeat split; [simpl in Hi; lia | exact Ho |].
             intros j Hj. apply (Hfirst (S j)). lia. }
           discriminate.
Qed.

Lemma tag_suffix_skipn tag name i :
  tag_suffix tag name i -> i <= length name /\ skipn i name = tag.
Proof.
  intros (Hname & Hi & Hfirst).
  assert (Hle : i <= length name).
  { destruct (Nat.le_gt_cases i (length name)) as [H | H]; [exact H |].
    exfalso. rewrite firstn_all2 in Hname by lia.
    assert (tag = []).
    { apply (f_equal (@length ascii)) in Hname. rewrite length_app in Hname.
      destruct tag; [reflexivity | simpl in Hname; lia]. }
    subst tag. apply (Hfirst 0 Hi). reflexivity. }
  split; [exact Hle |].
  rewrite <- (firstn_skipn i name) in Hname at 1.
  now apply app_inv_head in Hname.
Qed.

(** C6.  [whiteout_tag] gives the offset [i] exactly when the name ends with
    the tag at [i], something stands before it, and the tag does not occur
    in the name before [i] (what [strstr] matched up to the end of the name
    is the tag and nothing more); otherwise it gives nothing.  With the tag
    of unionfs.h: the offset 4 for "file" followed by the tag, nothing for
    the tag alone, for "file", and for a name in which the tag is followed by
    more. *)
Theorem whiteout_tag_iff_tag_suffix :
  forall (tag name : cstr),
    (forall i, whiteout_tag tag name = Some i <-> tag_suffix tag name i)
    /\ (whiteout_tag tag name = None <-> ~ exists i, tag_suffix tag name i)
    /\ whiteout_tag Mount.HIDETAG (str "file" ++ Mount.HIDETAG) = Some 4
    /\ whiteout_tag Mount.HIDETAG Mount.HIDETAG = None
    /\ whiteout_tag Mount.HIDETAG (str "file") = None
    /\ whiteout_tag Mount.HIDETAG (str "a_HIDDEN~b_HIDDEN~") = None.
Proof.
  intros tag name.
  assert (Hiff : forall i, whiteout_tag tag name = Some i <-> tag_suffix tag name i).
  { intros i. unfold whiteout_tag, strlen. split.
    - destruct (strstr name tag) as [t |] eqn:Es; [| discriminate].
      destruct (negb (t =? 0) && (length (skipn t name) =? length tag)) eqn:Ec;
        [| discriminate].
      intros [= <-]. apply andb_true_iff in Ec as [Hz Hl].
      apply negb_true_iff, Nat.eqb_neq in Hz. apply Nat.eqb_eq in Hl.
      apply strstr_some in Es as (Hle & Ho & Hfirst).
      unfold occurs_at in Ho. rewrite <- Hl, firstn_all in Ho.
      repeat split; [| lia | exact Hfirst].
      rewrite <- Ho. symmetry. apply firstn_skipn.
    - intros Hs. destruct (tag_suffix_skipn _ _ _ Hs) as [Hle Hskip].
      destruct Hs as (_ & Hi & Hfirst).
      assert (Es : strstr name tag = Some i).
      { apply strstr_some. repeat split; [exact Hle | | exact Hfirst].
        unfold occurs_at. rewrite Hskip. apply firstn_all. }
      rewrite Es, Hskip, Nat.eqb_refl.
      destruct (Nat.eqb_spec i 0); [lia | reflexivity]. }
  split; [exact Hiff |]. split.
  - split.
    + intros Hn [i Hi]. apply Hiff in Hi. congruence.
    + intros Hn. destruct (whiteout_tag tag name) as [i |] eqn:E; [| reflexivity].
      exfalso. apply Hn. exists i. now apply Hiff.
  - repeat split; reflexivity.
Qed.

(* ================================================================== *)
(** * string.c: build_path *)

(** C7, as the code has it.  With no first argument, or an empty one,
    [build_path] returns [-EIO], the error number of an I/O error, whatever
    follows and whatever the capacity; it returns neither 0 nor the error
    for a name too long. *)
Theorem build_path_no_first_argument :
  forall (max_len : nat) (args : list cstr),
    0 < max_len ->
    hd [] args = [] ->
    build_path max_len args = Done ((- EIO)%Z, [])
    /\ error_of (- EIO) = Some IOError.
Proof.
  intros max_len args Hmax Hhd. split; [| reflexivity].
  unfold build_path, store.
  destruct (Nat.ltb_spec 0 max_len) as [_ | H]; [| lia]. cbn [bind].
  destruct args as [| arg rest]; [reflexivity |].
  simpl in Hhd. subst arg. reflexivity.
Qed.

Lemma build_path_no_first_argument_witness :
  build_path Mount.PATHLEN_MAX [str ""; str "foo"] = Done ((- EIO)%Z, [])
  /\ error_of (- EIO) = Some IOError.
Proof.
  apply build_path_no_first_argument; [unfold Mount.PATHLEN_MAX; lia | reflexivity].
Defined.

(** C7 fails as stated: for an empty first segment the return value is not
    that of an invalid argument. *)
Lemma build_path_empty_first_not_invalid_argument :
  exists ret buf,
    build_path Mount.PATHLEN_MAX [str ""; str "foo"] = Done (ret, buf)
    /\ error_of ret <> Some InvalidArgument
    /\ ret <> (- EINVAL)%Z.
Proof.
  exists (- EIO)%Z, []. repeat split; [discriminate | discriminate].
Qed.

(** C2 fails on the code: stores past the end of a path buffer.
    [build_path] with a capacity of 5, "/mnt" and "foo" puts the separator
    into the last byte and the terminator behind it; with the constants of
    unionfs.h and a marker path of 1016 bytes, the [strcat] of the tag in
    [do_create_whiteout] and in [remove_hidden] ends at offset 1024 of a
    buffer of 1024 bytes, on every host. *)
Theorem path_buffer_stores_past_capacity :
  build_path 5 [str "/mnt"; str "foo"] = Undefined (StorePast 5 5)
  /\ (forall (fsys : Type) (host : Host fsys) (s : fsys),
         hide_file Mount.PATHLEN_MAX Mount.HIDETAG Mount.METADIR Mount.uopt
                   s Mount.deep 0
         = Undefined (StorePast 1024 1024))
  /\ (forall (fsys : Type) (host : Host fsys) (s : fsys),
         hide_dir Mount.PATHLEN_MAX Mount.HIDETAG Mount.METADIR Mount.uopt
                  s Mount.deep 0
         = Undefined (StorePast 1024 1024))
  /\ (forall (fsys : Type) (host : Host fsys) (s : fsys),
         remove_hidden Mount.PATHLEN_MAX Mount.HIDETAG Mount.METADIR Mount.uopt
                       s Mount.deep 0
         = Undefined (StorePast 1024 1024)).
Proof.
  split; [reflexivity |].
  split; [intros; vm_compute; reflexivity |].
  split; intros; vm_compute; reflexivity.
Qed.

(* ================================================================== *)
(** * general.c: set_owner *)

(** C9, as the code has it.  [set_owner] calls [lchown] with the user and the
    group of the context exactly when neither of the two is zero, and then
    returns 0 if the call succeeded; when the user or the group is zero it
    leaves the host as it is and returns 0. *)
Theorem set_owner_applies_unless_zero_id :
  forall (fsys : Type) (host : Host fsys) (ctx : fuse_context) (s : fsys) (p : cstr),
    (uid ctx <> 0%Z -> gid ctx <> 0%Z ->
       snd (set_owner ctx s p) = fst (lchown s p (uid ctx) (gid ctx))
       /\ (snd (lchown s p (uid ctx) (gid ctx)) = 0%Z -> fst (set_owner ctx s p) = 0%Z))
    /\ (uid ctx = 0%Z \/ gid ctx = 0%Z -> set_owner ctx s p = (0%Z, s)).
Proof.
  intros fsys host ctx s p. unfold set_owner. split.
  - intros Hu Hg.
    destruct (Z.eqb_spec (uid ctx) 0) as [? | _]; [contradiction |].
    destruct (Z.eqb_spec (gid ctx) 0) as [? | _]; [contradiction |].
    cbn [negb andb].
    destruct (lchown s p (uid ctx) (gid ctx)) as [s' res]. cbn [fst snd].
    destruct (Z.eqb_spec res 0) as [-> | Hres]; cbn [negb fst snd].
    + split; reflexivity.
    + split; [reflexivity | contradiction].
  - intros [H | H]; rewrite H.
    + reflexivity.
    + cbn [Z.eqb negb]. rewrite andb_false_r. reflexivity.
Qed.

Lemma set_owner_applies_unless_zero_id_witness :
  snd (set_owner {| uid := 1000; gid := 100 |} Mount.fs0 (str "/ro/note.txt"))
  = fst (lchown Mount.fs0 (str "/ro/note.txt") 1000 100)
  /\ fst (set_owner {| uid := 1000; gid := 100 |} Mount.fs0 (str "/ro/note.txt")) = 0%Z
  /\ set_owner {| uid := 0; gid := 0 |} Mount.fs0 (str "/ro/note.txt") = (0%Z, Mount.fs0).
Proof.
  destruct (set_owner_applies_unless_zero_id
              _ _ {| uid := 1000; gid := 100 |} Mount.fs0 (str "/ro/note.txt"))
    as [Happ _].
  destruct (set_owner_applies_unless_zero_id
              _ _ {| uid := 0; gid := 0 |} Mount.fs0 (str "/ro/note.txt"))
    as [_ Hskip].
  destruct Happ as [Hs Hr]; [discriminate | discriminate |].
  split; [exact Hs |].
  split; [apply Hr; reflexivity |].
  apply Hskip. left. reflexivity.
Defined.

(** C9 fails as stated: a user who is not the superuser, in group 0, does
    not get the entry, which stays with its owner, although the [lchown] of
    the claim would have handed it over. *)
Lemma set_owner_skips_user_in_group_zero :
  uid {| uid := 1000; gid := 0 |} <> 0%Z
  /\ set_owner {| uid := 1000; gid := 0 |} Mount.fs0 (str "/ro/note.txt")
     = (0%Z, Mount.fs0)
  /\ option_map st_uid (lstat Mount.fs0 (str "/ro/note.txt")) = Some 0%Z
  /\ option_map st_uid
       (lstat (fst (lchown Mount.fs0 (str "/ro/note.txt") 1000 0)) (str "/ro/note.txt"))
     = Some 1000%Z.
Proof.
  split; [discriminate |]. repeat split; reflexivity.
Qed.

(* ================================================================== *)
(** * string.c: what build_path leaves in the buffer *)

Lemma is_slash_true c : is_slash c = true <-> c = slash.
Proof. apply Ascii.eqb_eq. Qed.

Lemma last_slash_nonempty a : is_slash (last a NUL) = true -> a <> [].
Proof. intros H ->. discriminate. Qed.

Lemma length_removelast_slash a :
  is_slash (last a NUL) = true -> length (removelast a) = length a - 1.
Proof.
  intros H. pose proof (last_slash_nonempty a H) as Hne.
  rewrite (app_removelast_last NUL Hne) at 2. rewrite length_app. simpl. lia.
Qed.

Lemma hd_slash_nonempty b : is_slash (hd NUL b) = true -> 1 <= length b.
Proof. destruct b; [discriminate | simpl; lia]. Qed.

Lemma length_join_ge a b : length a <= length (join a b).
Proof.
  unfold join.
  destruct (is_slash (last a NUL)) eqn:Ea, (is_slash (hd NUL b)) eqn:Eb; cbn [andb negb];
    rewrite length_app; try (simpl; lia).
  rewrite length_removelast_slash by assumption.
  apply hd_slash_nonempty in Eb. lia.
Qed.

Lemma length_fold_join_ge args : forall a, length a <= length (fold_left join args a).
Proof.
  induction args as [| b args IH]; intros a; simpl; [lia |].
  etransitivity; [apply length_join_ge | apply IH].
Qed.

(** A run of the loop that returns 0 leaves the joined segments. *)
Lemma build_path_rest_done max_len args : forall acc len r,
  len = length acc ->
  build_path_rest max_len acc len args = Done (0%Z, r) ->
  r = fold_left join args acc /\ length r < max_len.
Proof.
  induction args as [| arg args IH]; intros acc len r Hlen Hrun.
  - cbn [build_path_rest] in Hrun. unfold store in Hrun.
    destruct (Nat.ltb_spec (length acc) max_len); cbn [bind] in Hrun; [| discriminate].
    injection Hrun as <-. split; [reflexivity | assumption].
  - cbn [build_path_rest fold_left] in Hrun |- *. unfold join.
    assert (Hcopy : forall acc' len',
               len' = length acc' ->
               (if max_len <? len' + strlen arg + 1
                then store max_len (length acc') ;;; Done ((- ENAMETOOLONG)%Z, acc')
                else store_n max_len (length acc') (strlen arg) ;;;
                     build_path_rest max_len (acc' ++ arg) (len' + strlen arg) args)
               = Done (0%Z, r) ->
               r = fold_left join args (acc' ++ arg) /\ length r < max_len).
    { intros acc' len' Hl Hc.
      destruct (max_len <? len' + strlen arg + 1).
      - destruct (store max_len (length acc')); discriminate.
      - destruct (store_n max_len (length acc') (strlen arg)); cbn [bind] in Hc;
          try discriminate.
        apply (IH _ _ _ (eq_trans (f_equal (fun n => n + strlen arg) Hl)
                                  (eq_sym (length_app acc' arg))) Hc). }
    destruct (is_slash (last acc NUL)) eqn:Ea, (is_slash (hd NUL arg)) eqn:Eb;
      cbn [andb negb] in Hrun |- *.
    + apply (Hcopy _ _ (eq_trans (f_equal (fun n => n - 1) Hlen)
                                 (eq_sym (length_removelast_slash _ Ea))) Hrun).
    + apply (Hcopy _ _ Hlen Hrun).
    + apply (Hcopy _ _ Hlen Hrun).
    + destruct (store max_len (length acc)); cbn [bind] in Hrun; try discriminate.
      replace (acc ++ slash :: arg) with ((acc ++ [slash]) ++ arg)
        by (rewrite <- app_assoc; reflexivity).
      apply (Hcopy (acc ++ [slash]) (len + 1)); [| exact Hrun].
      rewrite length_app. simpl. lia.
Qed.

(** The joined segments are what the loop leaves when they fit. *)
Lemma build_path_rest_fits max_len args : forall acc,
  length (fold_left join args acc) < max_len ->
  build_path_rest max_len acc (length acc) args
  = Done (0%Z, fold_left join args acc).
Proof.
  induction args as [| arg args IH]; intros acc Hfit.
  - cbn [build_path_rest fold_left] in *. unfold store.
    destruct (Nat.ltb_spec (length acc) max_len); [reflexivity | lia].
  - cbn [build_path_rest fold_left] in *.
    pose proof (length_fold_join_ge args (join acc arg)) as Hge.
    assert (Hcopy : forall acc' len',
               len' = length acc' -> acc' ++ arg = join acc arg ->
               (if max_len <? len' + strlen arg + 1
                then store max_len (length acc') ;;; Done ((- ENAMETOOLONG)%Z, acc')
                else store_n max_len (length acc') (strlen arg) ;;;
                     build_path_rest max_len (acc' ++ arg) (len' + strlen arg) args)
               = Done (0%Z, fold_left join args (join acc arg))).
    { intros acc' len' Hl Hj.
      assert (Hlj : length (join acc arg) = len' + strlen arg).
      { rewrite <- Hj, length_app, Hl. reflexivity. }
      destruct (Nat.ltb_spec max_len (len' + strlen arg + 1)); [lia |].
      unfold store_n.
      destruct (Nat.leb_spec (length acc' + strlen arg) max_len); [| lia].
      rewrite orb_true_r. cbn [bind].
      rewrite <- Hlj, Hj. apply IH. exact Hfit. }
    unfold join in Hcopy |- *. unfold join in Hge, Hfit.
    destruct (is_slash (last acc NUL)) eqn:Ea, (is_slash (hd NUL arg)) eqn:Eb;
      cbn [andb negb] in *.
    + apply Hcopy; [| reflexivity]. now rewrite length_removelast_slash.
    + apply Hcopy; reflexivity.
    + apply Hcopy; reflexivity.
    + unfold store.
      assert (Hlt : length acc < max_len).
      { rewrite length_app in Hge. simpl in Hge. lia. }
      destruct (Nat.ltb_spec (length acc) max_len); [| lia]. cbn [bind].
      apply Hcopy.
      * rewrite length_app. simpl. lia.
      * rewrite <- app_assoc. reflexivity.
Qed.

Lemma build_path_done max_len a args r :
  build_path max_len (a :: args) = Done (0%Z, r) ->
  a <> [] /\ r = fold_left join args a /\ length r < max_len.
Proof.
  unfold build_path. intros Hrun.
  destruct (store max_len 0); cbn [bind] in Hrun; try discriminate.
  unfold strlen in Hrun.
  destruct (Nat.eqb_spec (length a) 0) as [| Hne]; [discriminate |].
  destruct (max_len <? 0 + length a + 1); [discriminate |].
  destruct (store_n max_len 0 (length a)); cbn [bind] in Hrun; try discriminate.
  apply build_path_rest_done in Hrun; [| reflexivity].
  split; [| exact Hrun]. intros ->. apply Hne. reflexivity.
Qed.

Lemma build_path_fits max_len a args :
  a <> [] ->
  length (fold_left join args a) < max_len ->
  build_path max_len (a :: args) = Done (0%Z, fold_left join args a).
Proof.
  intros Hne Hfit. unfold build_path, store, strlen.
  pose proof (length_fold_join_ge args a) as Hge.
  destruct (Nat.ltb_spec 0 max_len); [| lia]. cbn [bind].
  destruct (Nat.eqb_spec (length a) 0) as [H0 |].
  { destruct a; [contradiction | discriminate]. }
  destruct (Nat.ltb_spec max_len (0 + length a + 1)); [lia |].
  unfold store_n. destruct (Nat.leb_spec (0 + length a) max_len); [| lia].
  rewrite orb_true_r. cbn [bind]. apply build_path_rest_fits. exact Hfit.
Qed.

Lemma length_join_le a b : length (join a b) <= length a + length b + 1.
Proof.
  unfold join.
  destruct (is_slash (last a NUL)) eqn:Ea, (is_slash (hd NUL b)) eqn:Eb; cbn [andb negb];
    rewrite length_app; try (simpl; lia).
  rewrite length_removelast_slash by assumption. lia.
Qed.

(** A turn of the loop for a segment that fits. *)
Lemma build_path_rest_step max_len acc arg rest :
  length (join acc arg) < max_len ->
  build_path_rest max_len acc (length acc) (arg :: rest)
  = build_path_rest max_len (join acc arg) (length (join acc arg)) rest.
Proof.
  intros Hfit. cbn [build_path_rest].
  assert (Hcopy : forall acc' len',
             len' = length acc' -> acc' ++ arg = join acc arg ->
             (if max_len <? len' + strlen arg + 1
              then store max_len (length acc') ;;; Done ((- ENAMETOOLONG)%Z, acc')
              else store_n max_len (length acc') (strlen arg) ;;;
                   build_path_rest max_len (acc' ++ arg) (len' + strlen arg) rest)
             = build_path_rest max_len (join acc arg) (length (join acc arg)) rest).
  { intros acc' len' Hl Hj.
    assert (Hlj : length (join acc arg) = len' + strlen arg).
    { rewrite <- Hj, length_app, Hl. reflexivity. }
    destruct (Nat.ltb_spec max_len (len' + strlen arg + 1)); [lia |].
    unfold store_n.
    destruct (Nat.leb_spec (length acc' + strlen arg) max_len); [| lia].
    rewrite orb_true_r. cbn [bind]. now rewrite <- Hlj, Hj. }
  pose proof (length_join_ge acc arg) as Hge.
  unfold join in Hcopy, Hge, Hfit |- *.
  destruct (is_slash (last acc NUL)) eqn:Ea, (is_slash (hd NUL arg)) eqn:Eb;
    cbn [andb negb] in *.
  - apply Hcopy; [| reflexivity]. now rewrite length_removelast_slash.
  - apply Hcopy; reflexivity.
  - apply Hcopy; reflexivity.
  - unfold store. destruct (Nat.ltb_spec (length acc) max_len); [| lia]. cbn [bind].
    apply Hcopy.
    + rewrite length_app. simpl. lia.
    + rewrite <- app_assoc. reflexivity.
Qed.

(** The last segment does not fit: the error, and no store behind the
    buffer when what is before the segment leaves two bytes of it. *)
Lemma build_path_rest_last_too_long max_len acc arg :
  length acc + 1 < max_len ->
  max_len <= length (join acc arg) ->
  exists buf,
    build_path_rest max_len acc (length acc) [arg] = Done ((- ENAMETOOLONG)%Z, buf).
Proof.
  intros Hacc Hlong. cbn [build_path_rest].
  assert (Hcopy : forall acc' len',
             len' = length acc' -> acc' ++ arg = join acc arg ->
             length acc' < max_len ->
             exists buf,
               (if max_len <? len' + strlen arg + 1
                then store max_len (length acc') ;;; Done ((- ENAMETOOLONG)%Z, acc')
                else store_n max_len (length acc') (strlen arg) ;;;
                     build_path_rest max_len (acc' ++ arg) (len' + strlen arg) [])
               = Done ((- ENAMETOOLONG)%Z, buf)).
  { intros acc' len' Hl Hj Hlt.
    assert (Hlj : length (join acc arg) = len' + strlen arg).
    { rewrite <- Hj, length_app, Hl. reflexivity. }
    destruct (Nat.ltb_spec max_len (len' + strlen arg + 1)); [| lia].
    unfold store. destruct (Nat.ltb_spec (length acc') max_len); [| lia].
    exists acc'. reflexivity. }
  unfold join in Hcopy.
  destruct (is_slash (last acc NUL)) eqn:Ea, (is_slash (hd NUL arg)) eqn:Eb;
    cbn [andb negb] in *.
  - apply Hcopy; [| reflexivity |]; rewrite length_removelast_slash by assumption; lia.
  - apply Hcopy; [reflexivity | reflexivity | lia].
  - apply Hcopy; [reflexivity | reflexivity | lia].
  - unfold store. destruct (Nat.ltb_spec (length acc) max_len); [| lia]. cbn [bind].
    apply Hcopy.
    + rewrite length_app. simpl. lia.
    + rewrite <- app_assoc. reflexivity.
    + rewrite length_app. simpl. lia.
Qed.

(** [build_path] of a root, a directory name and a path, when the first two
    joined leave two bytes of the buffer: the three joined if they fit, the
    error if not. *)
Lemma build_path_three max_len (a m u : cstr) :
  a <> [] ->
  length (join a m) + 1 < max_len ->
  (length (join (join a m) u) < max_len ->
   build_path max_len [a; m; u] = Done (0%Z, join (join a m) u))
  /\ (max_len <= length (join (join a m) u) ->
      exists buf, build_path max_len [a; m; u] = Done ((- ENAMETOOLONG)%Z, buf)).
Proof.
  intros Hne Hroom. split.
  - intros Hfit. now apply (build_path_fits max_len a [m; u]).
  - intros Hlong. unfold build_path, store, strlen.
    pose proof (length_join_ge a m) as Hge.
    destruct (Nat.ltb_spec 0 max_len); [| lia]. cbn [bind].
    destruct (Nat.eqb_spec (length a) 0) as [H0 |].
    { destruct a; [contradiction | discriminate]. }
    destruct (Nat.ltb_spec max_len (0 + length a + 1)); [lia |].
    unfold store_n. destruct (Nat.leb_spec (0 + length a) max_len); [| lia].
    rewrite orb_true_r. cbn [bind Nat.add].
    rewrite build_path_rest_step by lia.
    now apply build_path_rest_last_too_long.
Qed.

(* ================================================================== *)
(** * general.c: remove_hidden *)

Section RemoveHidden.

Variable PATHLEN_MAX : nat.
Variable HIDETAG : cstr.
Variable METADIR : cstr.

Context {fsys : Type} {host : Host fsys}.

Variable uopt : uopt_t.
Variable upath : cstr.

Local Notation "'branch'" := (branch_at uopt).
Local Notation "'rh_loop'" := (remove_hidden_loop PATHLEN_MAX HIDETAG METADIR uopt).
Local Notation "'marker'" := (marker_path PATHLEN_MAX HIDETAG METADIR).
Local Notation "'defined'" := (marker_defined PATHLEN_MAX HIDETAG METADIR).
Local Notation "'spec_cleanup'" := (cleanup PATHLEN_MAX HIDETAG METADIR).
Local Notation "'inside'" := (in_buffers PATHLEN_MAX HIDETAG METADIR upath).

Lemma branch_at_middle pre b post :
  branches uopt = pre ++ b :: post ->
  branch (Z.of_nat (length pre)) = Done b.
Proof.
  intros E. unfold branch_at.
  destruct (Z.ltb_spec (Z.of_nat (length pre)) 0) as [H | _]; [lia |].
  rewrite Nat2Z.id, E, nth_error_app2, Nat.sub_diag by lia. reflexivity.
Qed.

Lemma branch_at_end :
  branch (Z.of_nat (length (branches uopt)))
  = Undefined (BranchIndex (Z.of_nat (length (branches uopt))) (length (branches uopt))).
Proof.
  unfold branch_at.
  destruct (Z.ltb_spec (Z.of_nat (length (branches uopt))) 0) as [H | _]; [lia |].
  rewrite Nat2Z.id.
  destruct (nth_error (branches uopt) (length (branches uopt))) eqn:E; [| reflexivity].
  assert (H : nth_error (branches uopt) (length (branches uopt)) <> None) by congruence.
  apply nth_error_Some in H. lia.
Qed.

(** One turn of the loop, for a branch whose marker path stays inside the
    buffers. *)
Lemma remove_hidden_loop_step n pre b post s :
  branches uopt = pre ++ b :: post ->
  defined b upath = true ->
  rh_loop (S n) (Z.of_nat (length pre)) upath s
  = match marker b upath with
    | None => Done ((- ENAMETOOLONG)%Z, s)
    | Some m =>
        match lstat s m with
        | None => rh_loop n (Z.of_nat (length (pre ++ [b]))) upath s
        | Some st =>
            if st_isdir st
            then rh_loop n (Z.of_nat (length (pre ++ [b]))) upath (fst (rmdir s m))
            else rh_loop n (Z.of_nat (length (pre ++ [b]))) upath (fst (unlink s m))
        end
    end.
Proof.
  intros E Hdef.
  assert (Hnext : (Z.of_nat (length pre) + 1)%Z = Z.of_nat (length (pre ++ [b]))).
  { rewrite length_app. simpl. lia. }
  cbn [remove_hidden_loop]. rewrite (branch_at_middle _ _ _ E). cbn [bind].
  unfold marker_defined in Hdef.
  unfold marker_path, BUILD_PATH.
  destruct (build_path PATHLEN_MAX [path b; METADIR; upath]) as [[r p] | f |];
    [| discriminate | discriminate].
  cbn [bind]. destruct (Z.eqb_spec r 0) as [-> | Hr]; cbn [negb].
  - apply negb_true_iff, Nat.eqb_neq in Hdef.
    destruct (Nat.ltb_spec PATHLEN_MAX (strlen p + strlen HIDETAG)) as [Hlong | Hfit].
    + destruct (Nat.ltb_spec (strlen p + strlen HIDETAG) PATHLEN_MAX); [lia | reflexivity].
    + destruct (Nat.ltb_spec (strlen p + strlen HIDETAG) PATHLEN_MAX) as [Hlt | ?]; [| lia].
      unfold store_n.
      destruct (Nat.leb_spec (strlen p + (strlen HIDETAG + 1)) PATHLEN_MAX); [| lia].
      rewrite orb_true_r. cbn [bind]. unfold path_is_dir. rewrite Hnext.
      destruct (lstat s (p ++ HIDETAG)) as [st |]; [| reflexivity].
      destruct (st_isdir st); reflexivity.
  - destruct r; try reflexivity. contradiction.
Qed.

(** There the marker path that the code builds is the marker of the
    specification, if that fits in a path buffer. *)
Lemma marker_path_spec b :
  inside b ->
  defined b upath = true
  /\ marker b upath
     = if PATHLEN_MAX <=? length (marker_of HIDETAG METADIR b upath) then None
       else Some (marker_of HIDETAG METADIR b upath).
Proof.
  intros (Hne & Hroom & Hnot). unfold marker_defined, marker_path.
  unfold marker_of in *. rewrite length_app in *.
  destruct (build_path_three PATHLEN_MAX (path b) METADIR upath Hne Hroom) as [Hfit Hlong].
  destruct (Nat.lt_ge_cases (length (join (join (path b) METADIR) upath)) PATHLEN_MAX)
    as [Hlt | Hge].
  - rewrite (Hfit Hlt). cbn [Z.eqb]. unfold strlen. split.
    + apply negb_true_iff, Nat.eqb_neq. exact Hnot.
    + destruct (Nat.ltb_spec (length (join (join (path b) METADIR) upath) + length HIDETAG)
                             PATHLEN_MAX);
        destruct (Nat.leb_spec PATHLEN_MAX
                    (length (join (join (path b) METADIR) upath) + length HIDETAG));
        (reflexivity || lia).
  - destruct (Hlong Hge) as (buf & ->). split; [reflexivity |].
    destruct (Nat.leb_spec PATHLEN_MAX
                (length (join (join (path b) METADIR) upath) + length HIDETAG));
      [reflexivity | lia].
Qed.

Lemma remove_hidden_loop_cleanup bs : forall pre post s,
  branches uopt = pre ++ bs ++ post ->
  (forall b, In b bs -> inside b) ->
  rh_loop (length bs) (Z.of_nat (length pre)) upath s
  = Done (spec_cleanup bs upath s).
Proof.
  induction bs as [| b bs IH]; intros pre post s E Hin.
  - reflexivity.
  - destruct (marker_path_spec b (Hin b (or_introl eq_refl))) as [Hdef Hm].
    cbn [length]. rewrite (remove_hidden_loop_step _ pre b (bs ++ post)) by assumption.
    cbn [cleanup]. rewrite Hm.
    assert (E' : branches uopt = (pre ++ [b]) ++ bs ++ post).
    { rewrite E, <- app_assoc. reflexivity. }
    assert (Hin' : forall b', In b' bs -> inside b') by (intros b' Hb'; apply Hin; now right).
    destruct (PATHLEN_MAX <=? length (marker_of HIDETAG METADIR b upath)); [reflexivity |].
    destruct (lstat s (marker_of HIDETAG METADIR b upath)) as [st |];
      [destruct (st_isdir st) |]; apply (IH _ post); assumption.
Qed.

(** Asked for every branch, the loop reads one entry more than there
    are. *)
Lemma remove_hidden_loop_past_last k : forall s,
  k <= length (branches uopt) ->
  forallb (fun b => match marker b upath with Some _ => true | None => false end)
          (branches uopt) = true ->
  rh_loop (S k) (Z.of_nat (length (branches uopt) - k)) upath s
  = Undefined (BranchIndex (Z.of_nat (length (branches uopt))) (length (branches uopt))).
Proof.
  induction k as [| k IH]; intros s Hk Hfit.
  - rewrite Nat.sub_0_r. cbn [remove_hidden_loop].
    rewrite branch_at_end. reflexivity.
  - set (i := length (branches uopt) - S k).
    assert (Hi : i < length (branches uopt)) by (unfold i; lia).
    destruct (nth_error (branches uopt) i) as [b |] eqn:Eb;
      [| apply nth_error_None in Eb; lia].
    destruct (nth_error_split _ _ Eb) as (pre & post & E & Hpre).
    assert (Hb : marker b upath <> None).
    { rewrite forallb_forall in Hfit. specialize (Hfit b).
      rewrite E in Hfit. specialize (Hfit (in_elt _ _ _)).
      destruct (marker b upath); [discriminate | discriminate]. }
    assert (Hdef : defined b upath = true).
    { unfold marker_path in Hb.
      unfold marker_defined.
      destruct (build_path PATHLEN_MAX [path b; METADIR; upath]) as [[r p] | f |];
        try congruence.
      destruct r; try congruence. cbn [Z.eqb].
      destruct (Nat.ltb_spec (strlen p + strlen HIDETAG) PATHLEN_MAX); [| congruence].
      apply negb_true_iff, Nat.eqb_neq. lia. }
    rewrite <- Hpre. rewrite (remove_hidden_loop_step _ pre b post) by assumption.
    assert (Hnext : length (pre ++ [b]) = length (branches uopt) - k).
    { rewrite length_app. simpl. unfold i in Hpre. lia. }
    rewrite Hnext.
    destruct (marker b upath) as [m |]; [| congruence].
    destruct (lstat s m) as [st |]; [destruct (st_isdir st) |]; apply IH; (lia || assumption).
Qed.

End RemoveHidden.

Lemma cleanup_result PATHLEN_MAX HIDETAG METADIR {fsys : Type} {host : Host fsys}
      (upath : cstr) (bs : list branch_entry_t) : forall s : fsys,
  fst (cleanup PATHLEN_MAX HIDETAG METADIR bs upath s)
  = if existsb (fun b => PATHLEN_MAX <=? length (marker_of HIDETAG METADIR b upath)) bs
    then (- ENAMETOOLONG)%Z else 0%Z.
Proof.
  induction bs as [| b bs IH]; intros s; cbn [cleanup existsb].
  - reflexivity.
  - destruct (PATHLEN_MAX <=? length (marker_of HIDETAG METADIR b upath)); [reflexivity |].
    cbn [orb].
    destruct (lstat s (marker_of HIDETAG METADIR b upath)) as [st |];
      [destruct (st_isdir st) |]; apply IH.
Qed.


(** The loop is the cleanup over the first [maxbranch + 1] branches. *)
Lemma remove_hidden_cleanup PATHLEN_MAX HIDETAG METADIR {fsys : Type} {host : Host fsys}
      (uopt : uopt_t) (s : fsys) (upath : cstr) (maxbranch : Z) :
  cow_enabled uopt = true ->
  (0 <= maxbranch < Z.of_nat (length (branches uopt)))%Z ->
  (forall b, In b (firstn (Z.to_nat (maxbranch + 1)) (branches uopt)) ->
             in_buffers PATHLEN_MAX HIDETAG METADIR upath b) ->
  remove_hidden PATHLEN_MAX HIDETAG METADIR uopt s upath maxbranch
  = Done (cleanup PATHLEN_MAX HIDETAG METADIR
                  (firstn (Z.to_nat (maxbranch + 1)) (branches uopt)) upath s).
Proof.
  intros Hcow Hrange Hin. unfold remove_hidden. rewrite Hcow. cbn [negb].
  destruct (Z.eqb_spec maxbranch (-1)) as [? | _]; [lia |].
  set (bs := firstn (Z.to_nat (maxbranch + 1)) (branches uopt)) in *.
  assert (Hlen : length bs = Z.to_nat (maxbranch + 1)).
  { unfold bs. rewrite length_firstn. lia. }
  rewrite <- Hlen.
  apply (remove_hidden_loop_cleanup PATHLEN_MAX HIDETAG METADIR uopt upath bs []
           (skipn (Z.to_nat (maxbranch + 1)) (branches uopt))).
  - unfold bs. cbn [app]. symmetry. apply firstn_skipn.
  - exact Hin.
Qed.

(** C4 fails on the code.  With copy-on-write on and [nbranches] the number
    of branches, a call with [maxbranch = -1] for a path whose markers fit
    in every branch goes through all the branches and then reads
    [uopt.branches[nbranches]], one past the last. *)
Theorem remove_hidden_all_reads_past_last_branch :
  forall (PATHLEN_MAX : nat) (HIDETAG METADIR : cstr) (fsys : Type) (host : Host fsys)
         (uopt : uopt_t) (s : fsys) (upath : cstr),
    cow_enabled uopt = true ->
    nbranches uopt = Z.of_nat (length (branches uopt)) ->
    forallb (fun b => match marker_path PATHLEN_MAX HIDETAG METADIR b upath with
                      | Some _ => true
                      | None => false
                      end) (branches uopt) = true ->
    remove_hidden PATHLEN_MAX HIDETAG METADIR uopt s upath (-1)
    = Undefined (BranchIndex (nbranches uopt) (length (branches uopt))).
Proof.
  intros PATHLEN_MAX HIDETAG METADIR fsys host uopt s upath Hcow Hn Hfit.
  unfold remove_hidden. rewrite Hcow, Z.eqb_refl. cbn [negb].
  rewrite Hn.
  replace (Z.to_nat (Z.of_nat (length (branches uopt)) + 1))
    with (S (length (branches uopt))) by lia.
  pose proof (remove_hidden_loop_past_last PATHLEN_MAX HIDETAG METADIR uopt upath
                (length (branches uopt)) s (le_n _) Hfit) as H.
  rewrite Nat.sub_diag in H. exact H.
Qed.

Lemma remove_hidden_all_reads_past_last_branch_witness :
  remove_hidden Mount.PATHLEN_MAX Mount.HIDETAG Mount.METADIR Mount.uopt
                Mount.fs0 (str "/note.txt") (-1)
  = Undefined (BranchIndex 2 2).
Proof.
  apply (remove_hidden_all_reads_past_last_branch
           Mount.PATHLEN_MAX Mount.HIDETAG Mount.METADIR _ _
           Mount.uopt Mount.fs0 (str "/note.txt"));
    reflexivity.
Defined.




(* ================================================================== *)
(** * general.c: the walk of path_hidden *)

Lemma skip_name_from_spec rest : forall w,
  exists k, skip_name_from rest w = w + k /\ k <= length rest
            /\ (forall i, i < k -> is_slash (nth i rest NUL) = false)
            /\ (k < length rest -> is_slash (nth k rest NUL) = true).
Proof.
  induction rest as [| c rest IH]; intros w; cbn [skip_name_from].
  - exists 0. repeat split; [lia | reflexivity | lia | simpl; lia].
  - destruct (is_slash c) eqn:Ec.
    + exists 0. repeat split; [lia | simpl; lia | lia | intros _; exact Ec].
    + destruct (IH (S w)) as (k & Hk & Hle & Hno & Hat).
      exists (S k). repeat split; [lia | simpl; lia | |].
      * intros [| i] Hi; [exact Ec | apply Hno; lia].
      * intros Hlt. apply Hat. simpl in Hlt. lia.
Qed.

Lemma skip_slashes_from_spec rest : forall w,
  exists k, skip_slashes_from rest w = w + k /\ k <= length rest
            /\ (forall i, i < k -> is_slash (nth i rest NUL) = true)
            /\ is_slash (nth k rest NUL) = false.
Proof.
  induction rest as [| c rest IH]; intros w; cbn [skip_slashes_from].
  - exists 0. repeat split; [lia | reflexivity | lia].
  - destruct (is_slash c) eqn:Ec.
    + destruct (IH (S w)) as (k & Hk & Hle & Hall & Hat).
      exists (S k). repeat split; [lia | simpl; lia | | exact Hat].
      intros [| i] Hi; [exact Ec | apply Hall; lia].
    + exists 0. repeat split; [lia | simpl; lia | lia | exact Ec].
Qed.

(** [skip_name] stops at the first slash from [w] on, or at the end. *)
Lemma skip_name_spec buf w :
  w <= length buf ->
  w <= skip_name buf w <= length buf
  /\ (forall i, w <= i < skip_name buf w -> is_slash (nth i buf NUL) = false)
  /\ (skip_name buf w < length buf -> is_slash (nth (skip_name buf w) buf NUL) = true).
Proof.
  intros Hw. unfold skip_name.
  destruct (skip_name_from_spec (skipn w buf) w) as (k & -> & Hle & Hno & Hat).
  rewrite length_skipn in Hle, Hat. repeat split; try lia.
  - intros i Hi. replace i with (w + (i - w)) by lia. rewrite <- nth_skipn.
    apply Hno. lia.
  - intros Hlt. rewrite <- nth_skipn. apply Hat. lia.
Qed.

(** [skip_slashes] stops at the first byte from [w] on that is no slash. *)
Lemma skip_slashes_spec buf w :
  w <= length buf ->
  w <= skip_slashes buf w <= length buf
  /\ (forall i, w <= i < skip_slashes buf w -> is_slash (nth i buf NUL) = true)
  /\ is_slash (nth (skip_slashes buf w) buf NUL) = false.
Proof.
  intros Hw. unfold skip_slashes.
  destruct (skip_slashes_from_spec (skipn w buf) w) as (k & -> & Hle & Hall & Hat).
  rewrite length_skipn in Hle. repeat split; try lia.
  - intros i Hi. replace i with (w + (i - w)) by lia. rewrite <- nth_skipn.
    apply Hall. lia.
  - rewrite <- nth_skipn. exact Hat.
Qed.

Lemma component_end_spec p j :
  component_end p j = true <->
  0 < j <= length p
  /\ is_slash (nth (j - 1) p NUL) = false
  /\ (j < length p -> is_slash (nth j p NUL) = true).
Proof.
  unfold component_end. rewrite !andb_true_iff, orb_true_iff, !negb_true_iff.
  rewrite Nat.eqb_neq, Nat.eqb_eq. split.
  - intros [[Hj Hb] Ha].
    assert (Hle : j <= length p).
    { destruct (Nat.le_gt_cases j (length p)); [assumption |].
      rewrite nth_overflow in Hb by lia. discriminate. }
    repeat split; try lia.
    + rewrite (nth_indep p NUL slash) by lia. exact Hb.
    + intros Hlt. destruct Ha as [-> | Ha]; [lia | exact Ha].
  - intros (Hj & Hb & Ha). repeat split; try lia.
    + rewrite (nth_indep p slash NUL) by lia. exact Hb.
    + destruct (Nat.eq_dec j (length p)); [left; assumption | right; apply Ha; lia].
Qed.

Section PathHidden.

Variable PATHLEN_MAX : nat.
Variable HIDETAG : cstr.
Variable METADIR : cstr.

Context {fsys : Type} {host : Host fsys}.

Variable uopt : uopt_t.
Variable s : fsys.
Variable wp : cstr.

Hypothesis cow : cow_enabled uopt = true.

Local Notation "'hidden_at'" := (filedir_hidden PATHLEN_MAX HIDETAG uopt s wp).
Local Notation "'walk_loop'" := (fun fuel => path_hidden_loop PATHLEN_MAX HIDETAG uopt fuel s wp).

(** [filedir_hidden] on a prefix of the buffer. *)
Lemma filedir_hidden_prefix len :
  0 < len <= length wp ->
  hidden_at len
  = if PATHLEN_MAX <=? len + strlen HIDETAG then Done (- ENAMETOOLONG)%Z
    else match lstat s (firstn len wp ++ HIDETAG) with
         | Some _ => Done 1%Z
         | None => Done 0%Z
         end.
Proof.
  intros Hlen. unfold filedir_hidden. rewrite cow. cbn [negb].
  destruct (Nat.eqb_spec len 0) as [| _]; [lia |].
  destruct (Nat.leb_spec PATHLEN_MAX (len + strlen HIDETAG)); [reflexivity |].
  unfold store_n, store, strlen.
  destruct (Nat.leb_spec (0 + len) PATHLEN_MAX); [| lia]. rewrite orb_true_r. cbn [bind].
  destruct (Nat.leb_spec (len + length HIDETAG) PATHLEN_MAX); [| unfold strlen in *; lia].
  rewrite orb_true_r. cbn [bind].
  destruct (Nat.ltb_spec (len + length HIDETAG) PATHLEN_MAX); [| unfold strlen in *; lia].
  cbn [bind].
  destruct (Nat.ltb_spec (length wp) len); [lia | reflexivity].
Qed.

(** Where the name that [walk] stands in ends. *)
Lemma skip_name_end w :
  0 < w <= length wp ->
  is_slash (nth w wp NUL) = false ->
  skip_name wp w < length wp \/ w < skip_name wp w ->
  component_end wp (skip_name wp w) = true.
Proof.
  intros Hw Hns Hmove.
  destruct (skip_name_spec wp w (proj2 Hw)) as (Hr & Hno & Hat).
  apply component_end_spec. repeat split; try lia; [| exact Hat].
  destruct (Nat.eq_dec (skip_name wp w) w) as [E | E].
  - rewrite E in *. destruct Hmove as [Hlt | ?]; [| lia].
    rewrite (Hat Hlt) in Hns. discriminate.
  - apply Hno. lia.
Qed.

(** The walk reaches the end of every component behind [walk]. *)
Lemma skip_name_le_end w j :
  w <= j -> component_end wp j = true -> skip_name wp w <= j.
Proof.
  intros Hwj Hj. apply component_end_spec in Hj as (Hr & _ & Ha).
  destruct (skip_name_spec wp w ltac:(lia)) as (Hw1 & Hno & _).
  destruct (Nat.le_gt_cases (skip_name wp w) j) as [| Hgt]; [assumption |].
  specialize (Hno j ltac:(lia)). rewrite Ha in Hno by lia. discriminate.
Qed.

Lemma skip_slashes_lt_end w j :
  w < j -> component_end wp j = true -> skip_slashes wp w < j.
Proof.
  intros Hwj Hj. apply component_end_spec in Hj as (Hr & Hb & _).
  destruct (skip_slashes_spec wp w ltac:(lia)) as (Hw2 & Hall & _).
  destruct (Nat.le_gt_cases j (skip_slashes wp w)) as [Hge |]; [| assumption].
  rewrite (Hall (j - 1)) in Hb by lia. discriminate.
Qed.

(** A marker at the end of a component behind [walk] is found, when its
    name fits. *)
Lemma path_hidden_loop_hit fuel : forall w j,
  j + strlen HIDETAG < PATHLEN_MAX ->
  length wp - w < fuel ->
  0 < w -> w <= j ->
  is_slash (nth w wp NUL) = false ->
  component_end wp j = true ->
  lstat s (firstn j wp ++ HIDETAG) <> None ->
  walk_loop fuel w = Done 1%Z.
Proof.
  induction fuel as [| fuel IH]; intros w j Hfit Hfuel Hw Hwj Hns Hj Hmark; [lia |].
  pose proof (proj1 (component_end_spec _ _) Hj) as (Hjr & _ & _).
  destruct (skip_name_spec wp w ltac:(lia)) as (Hw1 & _ & Hat).
  pose proof (skip_name_le_end w j Hwj Hj) as Hw1j.
  cbn [path_hidden_loop]. rewrite filedir_hidden_prefix by lia.
  destruct (Nat.leb_spec PATHLEN_MAX (skip_name wp w + strlen HIDETAG)); [lia |].
  destruct (lstat s (firstn (skip_name wp w) wp ++ HIDETAG)) eqn:El; [reflexivity |].
  cbn [bind Z.eqb negb].
  assert (Hlt : skip_name wp w < j).
  { destruct (Nat.eq_dec (skip_name wp w) j) as [E |]; [| lia].
    rewrite E in El. contradiction. }
  destruct (skip_slashes_spec wp (skip_name wp w) ltac:(lia)) as (Hw2 & _ & Hns2).
  pose proof (skip_slashes_lt_end _ j Hlt Hj) as Hw2j.
  assert (Hmoved : skip_name wp w < skip_slashes wp (skip_name wp w)).
  { destruct (Nat.eq_dec (skip_slashes wp (skip_name wp w)) (skip_name wp w)) as [E |]; [| lia].
    rewrite E, Hat in Hns2 by lia. discriminate. }
  unfold strlen at 1.
  destruct (Nat.ltb_spec (skip_slashes wp (skip_name wp w)) (length wp)); [| lia].
  apply (IH _ j); (assumption || lia).
Qed.

(** With no marker at the end of any component behind [walk], nor at the end
    of the buffer, the walk ends with 0. *)
Lemma path_hidden_loop_miss fuel : forall w,
  length wp + strlen HIDETAG < PATHLEN_MAX ->
  length wp - w < fuel ->
  0 < w <= length wp ->
  is_slash (nth w wp NUL) = false ->
  (forall j, w <= j <= length wp ->
             component_end wp j = true \/ j = length wp ->
             lstat s (firstn j wp ++ HIDETAG) = None) ->
  walk_loop fuel w = Done 0%Z.
Proof.
  induction fuel as [| fuel IH]; intros w Hfit Hfuel Hw Hns Hnone; [lia |].
  destruct (skip_name_spec wp w ltac:(lia)) as (Hw1 & _ & Hat).
  cbn [path_hidden_loop]. rewrite filedir_hidden_prefix by lia.
  destruct (Nat.leb_spec PATHLEN_MAX (skip_name wp w + strlen HIDETAG)); [lia |].
  rewrite Hnone; [| lia |].
  2:{ destruct (Nat.eq_dec (skip_name wp w) (length wp)) as [| Hne]; [right; assumption |].
      left. apply skip_name_end; [assumption | assumption | lia]. }
  cbn [bind Z.eqb negb].
  destruct (skip_slashes_spec wp (skip_name wp w) ltac:(lia)) as (Hw2 & _ & Hns2).
  unfold strlen at 1.
  destruct (Nat.ltb_spec (skip_slashes wp (skip_name wp w)) (length wp)) as [Hlt |];
    [| reflexivity].
  assert (Hmoved : skip_name wp w < skip_slashes wp (skip_name wp w)).
  { destruct (Nat.eq_dec (skip_slashes wp (skip_name wp w)) (skip_name wp w)) as [E |]; [| lia].
    rewrite E, Hat in Hns2 by lia. discriminate. }
  apply IH; try (assumption || lia).
  intros j Hj Hend. apply Hnone; [lia | exact Hend].
Qed.

(** The first component behind [walk] whose marker name does not fit ends
    the walk with the error, when no shorter one, of those that fit, has a
    marker. *)
Lemma path_hidden_loop_too_long fuel : forall w j,
  length wp - w < fuel ->
  0 < w -> w <= j ->
  is_slash (nth w wp NUL) = false ->
  component_end wp j = true ->
  PATHLEN_MAX <= j + strlen HIDETAG ->
  (forall j', w <= j' < j -> component_end wp j' = true ->
              j' + strlen HIDETAG < PATHLEN_MAX ->
              lstat s (firstn j' wp ++ HIDETAG) = None) ->
  walk_loop fuel w = Done (- ENAMETOOLONG)%Z.
Proof.
  induction fuel as [| fuel IH]; intros w j Hfuel Hw Hwj Hns Hj Hlong Hnone; [lia |].
  pose proof (proj1 (component_end_spec _ _) Hj) as (Hjr & _ & _).
  destruct (skip_name_spec wp w ltac:(lia)) as (Hw1 & _ & Hat).
  pose proof (skip_name_le_end w j Hwj Hj) as Hw1j.
  cbn [path_hidden_loop]. rewrite filedir_hidden_prefix by lia.
  destruct (Nat.leb_spec PATHLEN_MAX (skip_name wp w + strlen HIDETAG)); [reflexivity |].
  assert (Hlt : skip_name wp w < j) by lia.
  rewrite Hnone; [| lia | apply skip_name_end; (assumption || lia) | assumption].
  cbn [bind Z.eqb negb].
  destruct (skip_slashes_spec wp (skip_name wp w) ltac:(lia)) as (Hw2 & _ & Hns2).
  pose proof (skip_slashes_lt_end _ j Hlt Hj) as Hw2j.
  assert (Hmoved : skip_name wp w < skip_slashes wp (skip_name wp w)).
  { destruct (Nat.eq_dec (skip_slashes wp (skip_name wp w)) (skip_name wp w)) as [E |]; [| lia].
    rewrite E, Hat in Hns2 by lia. discriminate. }
  unfold strlen at 1.
  destruct (Nat.ltb_spec (skip_slashes wp (skip_name wp w)) (length wp)); [| lia].
  apply (IH _ j); try (assumption || lia).
  intros j' Hj' He Hf. apply Hnone; (assumption || lia).
Qed.

End PathHidden.

(* ================================================================== *)
(** * general.c: the prefixes path_hidden looks at *)

Lemma nth_0_hd (u : cstr) : nth 0 u NUL = hd NUL u.
Proof. destruct u; reflexivity. Qed.

Lemma nth_last (a : cstr) : a <> [] -> nth (length a - 1) a NUL = last a NUL.
Proof.
  intros Hne. rewrite (app_removelast_last NUL Hne) at 1 2.
  rewrite length_app. simpl. rewrite Nat.add_sub.
  apply nth_middle.
Qed.

Lemma ends_with_slash_app a b :
  ends_with_slash b = true -> ends_with_slash (a ++ b) = true.
Proof.
  unfold ends_with_slash. intros Hb.
  pose proof (last_slash_nonempty b Hb) as Hne.
  rewrite (app_removelast_last NUL Hne), app_assoc, last_last.
  rewrite (app_removelast_last NUL Hne), last_last in Hb. exact Hb.
Qed.

Lemma join_root_metadir root metadir :
  ends_with_slash root = true ->
  is_slash (hd NUL metadir) = false ->
  join root metadir = root ++ metadir.
Proof.
  unfold ends_with_slash, join. intros -> ->. reflexivity.
Qed.

(** What stands before the last segment when the segments before it end
    with a slash: the same for all last segments that start alike. *)
Lemma join_after_slash base u :
  ends_with_slash base = true ->
  exists pre,
    (forall q, is_slash (hd NUL q) = is_slash (hd NUL u) -> join base q = pre ++ q)
    /\ length base - 1 <= length pre <= length base
    /\ is_slash (nth (length base - 1) (pre ++ u) NUL) = true.
Proof.
  unfold ends_with_slash. intros Hb.
  pose proof (last_slash_nonempty base Hb) as Hne.
  destruct (is_slash (hd NUL u)) eqn:Eu.
  - exists (removelast base). repeat split.
    + intros q Hq. unfold join. rewrite Hb, Hq. reflexivity.
    + rewrite length_removelast_slash by assumption. lia.
    + rewrite length_removelast_slash by assumption. lia.
    + rewrite app_nth2 by (rewrite length_removelast_slash by assumption; lia).
      rewrite length_removelast_slash, Nat.sub_diag, nth_0_hd by assumption. exact Eu.
  - exists base. repeat split; try lia.
    + intros q Hq. unfold join. rewrite Hb, Hq. reflexivity.
    + assert (0 < length base) by (destruct base; [contradiction | simpl; lia]).
      rewrite app_nth1 by lia. rewrite nth_last by assumption. exact Hb.
Qed.

Lemma component_end_app pre u i :
  1 <= i ->
  component_end (pre ++ u) (length pre + i) = component_end u i.
Proof.
  intros Hi.
  assert (Hiff : component_end (pre ++ u) (length pre + i) = true
                 <-> component_end u i = true).
  { rewrite !component_end_spec, length_app.
    replace (length pre + i - 1) with (length pre + (i - 1)) by lia.
    rewrite !app_nth2_plus. split; intros (Hr & Hb & Ha); repeat split; try lia;
      try assumption; intros; apply Ha; lia. }
  destruct (component_end (pre ++ u) (length pre + i)), (component_end u i);
    try reflexivity; [symmetry; apply Hiff; reflexivity | apply Hiff; reflexivity].
Qed.

Lemma hd_firstn (u : cstr) i : 1 <= i -> hd NUL (firstn i u) = hd NUL u.
Proof. destruct i; [lia |]. destruct u; reflexivity. Qed.

Section Prefixes.

Variable PATHLEN_MAX : nat.
Variable HIDETAG : cstr.
Variable METADIR : cstr.

Context {fsys : Type} {host : Host fsys}.

Variable uopt : uopt_t.
Variable s : fsys.
Variable upath : cstr.
Variable branch : Z.
Variable b : branch_entry_t.

Hypothesis cow : cow_enabled uopt = true.
Hypothesis at_branch : branch_at uopt branch = Done b.
Hypothesis root_len : path_len b = strlen (path b).
Hypothesis root_slash : ends_with_slash (path b) = true.
Hypothesis metadir_slash : ends_with_slash METADIR = true.
Hypothesis metadir_rel : is_slash (hd NUL METADIR) = false.

Local Notation "'marker'" := (marker_path PATHLEN_MAX HIDETAG METADIR).
Local Notation "'hidden'" := (path_hidden PATHLEN_MAX HIDETAG METADIR uopt).

Variable wp : cstr.
Hypothesis built : build_path PATHLEN_MAX [path b; METADIR; upath] = Done (0%Z, wp).

(** The buffer is [pre ++ upath]; the walk starts on a slash at or before the
    end of [pre]; and the marker of a prefix that starts as [upath] does is
    [pre] with the prefix and the tag. *)
Lemma whiteoutpath_shape :
  exists pre,
    wp = pre ++ upath
    /\ length wp < PATHLEN_MAX
    /\ path_len b + strlen METADIR - 1 <= length pre <= path_len b + strlen METADIR
    /\ is_slash (nth (path_len b + strlen METADIR - 1) wp NUL) = true
    /\ (forall i, 1 <= i <= length upath ->
          marker b (firstn i upath)
          = if length pre + i + strlen HIDETAG <? PATHLEN_MAX
            then Some (firstn (length pre + i) wp ++ HIDETAG) else None).
Proof.
  apply build_path_done in built as (Hne & Hwp & Hfit). cbn [fold_left] in Hwp.
  rewrite (join_root_metadir (path b) METADIR) in Hwp by assumption.
  pose proof (ends_with_slash_app (path b) METADIR metadir_slash) as Hbase.
  destruct (join_after_slash (path b ++ METADIR) upath Hbase) as (pre & Hjoin & Hlen & Hstart).
  rewrite length_app in Hlen, Hstart. rewrite root_len. unfold strlen in *.
  assert (E : wp = pre ++ upath) by (rewrite Hwp; apply Hjoin; reflexivity).
  exists pre. rewrite <- E in Hstart. repeat split; try assumption; try lia.
  intros i Hi. unfold marker_path.
  assert (Hlq : length (firstn i upath) = i) by (rewrite length_firstn; lia).
  assert (Hq : join (path b ++ METADIR) (firstn i upath) = pre ++ firstn i upath).
  { apply Hjoin. now rewrite hd_firstn by lia. }
  assert (Hpq : firstn (length pre + i) wp = pre ++ firstn i upath).
  { rewrite E. apply firstn_app_2. }
  rewrite build_path_fits; cbn [fold_left];
    rewrite ?(join_root_metadir (path b) METADIR) by assumption;
    rewrite ?Hq; try assumption.
  - rewrite Hpq. unfold strlen. rewrite length_app, Hlq. reflexivity.
  - rewrite length_app, Hlq. rewrite E, length_app in Hfit. lia.
Qed.

(** [path_hidden] is the walk from the first byte behind the slashes at the
    start. *)
Lemma path_hidden_is_walk :
  hidden s upath branch
  = path_hidden_loop PATHLEN_MAX HIDETAG uopt (S (length wp)) s wp
      (skip_slashes wp (path_len b + strlen METADIR - 1)).
Proof.
  destruct whiteoutpath_shape as (pre & _ & _ & _ & Hstart & _).
  assert (Hin : path_len b + strlen METADIR - 1 < length wp).
  { destruct (Nat.lt_ge_cases (path_len b + strlen METADIR - 1) (length wp)); [assumption |].
    rewrite nth_overflow in Hstart by lia. discriminate. }
  pose proof (last_slash_nonempty METADIR metadir_slash) as Hne.
  assert (Hm : 0 < strlen METADIR) by (destruct METADIR; [contradiction | simpl; lia]).
  unfold path_hidden. rewrite cow, at_branch. cbn [negb bind].
  unfold BUILD_PATH. rewrite built. cbn [bind Z.eqb negb].
  unfold strlen in *.
  destruct (Nat.eqb_spec (path_len b + length METADIR) 0); [lia |].
  destruct (Nat.ltb_spec (length wp) (path_len b + length METADIR - 1)); [lia |].
  reflexivity.
Qed.

Lemma walk_start :
  let w0 := skip_slashes wp (path_len b + strlen METADIR - 1) in
  path_len b + strlen METADIR - 1 < w0 <= length wp
  /\ is_slash (nth w0 wp NUL) = false
  /\ (forall i, path_len b + strlen METADIR - 1 <= i < w0 -> is_slash (nth i wp NUL) = true).
Proof.
  destruct whiteoutpath_shape as (pre & E & Hfit & Hpre & Hstart & _).
  assert (Hin : path_len b + strlen METADIR - 1 < length wp).
  { destruct (Nat.lt_ge_cases (path_len b + strlen METADIR - 1) (length wp)); [assumption |].
    rewrite nth_overflow in Hstart by lia. discriminate. }
  destruct (skip_slashes_spec wp (path_len b + strlen METADIR - 1) ltac:(lia))
    as (Hr & Hall & Hns).
  cbv zeta. repeat split; try lia; try assumption.
  destruct (Nat.eq_dec (skip_slashes wp (path_len b + strlen METADIR - 1))
                       (path_len b + strlen METADIR - 1)) as [E0 |]; [| lia].
  rewrite E0, Hstart in Hns. discriminate.
Qed.

(** A marker for a prefix of [upath] that ends with a component hides
    [upath]. *)
Lemma path_hidden_prefix_marked q m :
  ancestor_prefix q upath ->
  marker b q = Some m ->
  lstat s m <> None ->
  hidden s upath branch = Done 1%Z.
Proof.
  intros (i & Hi & ->) Hm Hex.
  destruct whiteoutpath_shape as (pre & E & _ & Hpre & Hstart & Hmarker).
  destruct walk_start as (Hw0 & Hns & Hall).
  pose proof (proj1 (component_end_spec _ _) Hi) as (Hir & _ & _).
  rewrite Hmarker in Hm by lia.
  destruct (Nat.ltb_spec (length pre + i + strlen HIDETAG) PATHLEN_MAX) as [Hfit |];
    [| discriminate].
  injection Hm as <-.
  assert (Hj : component_end wp (length pre + i) = true).
  { rewrite E, component_end_app by lia. exact Hi. }
  rewrite path_hidden_is_walk.
  apply (path_hidden_loop_hit PATHLEN_MAX HIDETAG uopt s wp cow _ _ (length pre + i));
    try (assumption || lia).
  destruct (Nat.le_gt_cases (skip_slashes wp (path_len b + strlen METADIR - 1))
                            (length pre + i)) as [| Hgt]; [assumption |].
  apply component_end_spec in Hj as (_ & Hb & _).
  rewrite Hall in Hb by lia. discriminate.
Qed.

(** The ends of components that the walk can reach are ends of components
    of [upath]. *)
Lemma walk_end_in_upath pre j :
  wp = pre ++ upath ->
  path_len b + strlen METADIR - 1 <= length pre <= path_len b + strlen METADIR ->
  is_slash (nth (path_len b + strlen METADIR - 1) wp NUL) = true ->
  path_len b + strlen METADIR - 1 < j ->
  component_end wp j = true ->
  exists i, j = length pre + i /\ 1 <= i <= length upath /\ component_end upath i = true.
Proof.
  intros E Hpre Hstart Hj Hend.
  pose proof (proj1 (component_end_spec _ _) Hend) as (Hjr & Hb & _).
  assert (Hgt : length pre < j).
  { destruct (Nat.eq_dec j (path_len b + strlen METADIR)) as [Ej |]; [| lia].
    rewrite Ej, Hstart in Hb. discriminate. }
  exists (j - length pre).
  assert (Hi : component_end upath (j - length pre) = true).
  { rewrite <- (component_end_app pre) by lia.
    replace (length pre + (j - length pre)) with j by lia. rewrite <- E. exact Hend. }
  rewrite E, length_app in Hjr. repeat split; try lia. exact Hi.
Qed.

(** With no marker for any such prefix, nor for [upath] itself, [upath] is
    not hidden, when the marker name of [upath] itself fits. *)
Lemma path_hidden_nothing_marked :
  length wp + strlen HIDETAG < PATHLEN_MAX ->
  (forall q m, ancestor_prefix q upath \/ q = upath ->
               marker b q = Some m -> lstat s m = None) ->
  hidden s upath branch = Done 0%Z.
Proof.
  intros Hfit Hnone.
  destruct whiteoutpath_shape as (pre & E & _ & Hpre & Hstart & Hmarker).
  destruct walk_start as (Hw0 & Hns & Hall).
  rewrite path_hidden_is_walk.
  apply (path_hidden_loop_miss PATHLEN_MAX HIDETAG uopt s wp cow);
    try (assumption || lia).
  intros j Hj Hend.
  destruct (Nat.eq_dec j (length wp)) as [-> | Hne].
  - rewrite firstn_all. apply (Hnone upath); [right; reflexivity |].
    unfold marker_path. rewrite built.
    destruct (Nat.ltb_spec (strlen wp + strlen HIDETAG) PATHLEN_MAX);
      [reflexivity | unfold strlen in *; lia].
  - destruct Hend as [Hend | ?]; [| contradiction].
    destruct (walk_end_in_upath pre j E Hpre Hstart ltac:(lia) Hend) as (i & -> & Hi & Hci).
    apply (Hnone (firstn i upath)); [left; exists i; split; [assumption | reflexivity] |].
    rewrite Hmarker by lia.
    destruct (Nat.ltb_spec (length pre + i + strlen HIDETAG) PATHLEN_MAX);
      [reflexivity | lia].
Qed.

(** A prefix whose marker name does not fit makes [path_hidden] return the
    error, when no shorter prefix has a marker. *)
Lemma path_hidden_prefix_too_long q :
  ancestor_prefix q upath ->
  marker b q = None ->
  (forall q' m, ancestor_prefix q' upath -> length q' < length q ->
                marker b q' = Some m -> lstat s m = None) ->
  hidden s upath branch = Done (- ENAMETOOLONG)%Z.
Proof.
  intros (i & Hi & ->) Hm Hnone.
  destruct whiteoutpath_shape as (pre & E & _ & Hpre & Hstart & Hmarker).
  destruct walk_start as (Hw0 & Hns & Hall).
  pose proof (proj1 (component_end_spec _ _) Hi) as (Hir & _ & _).
  rewrite Hmarker in Hm by lia.
  destruct (Nat.ltb_spec (length pre + i + strlen HIDETAG) PATHLEN_MAX) as [| Hlong];
    [discriminate |].
  assert (Hj : component_end wp (length pre + i) = true).
  { rewrite E, component_end_app by lia. exact Hi. }
  rewrite path_hidden_is_walk.
  apply (path_hidden_loop_too_long PATHLEN_MAX HIDETAG uopt s wp cow _ _ (length pre + i));
    try (assumption || lia).
  - destruct (Nat.le_gt_cases (skip_slashes wp (path_len b + strlen METADIR - 1))
                              (length pre + i)) as [| Hgt]; [assumption |].
    apply component_end_spec in Hj as (_ & Hb & _).
    rewrite Hall in Hb by lia. discriminate.
  - intros j' Hj' Hend' Hfit'.
    destruct (walk_end_in_upath pre j' E Hpre Hstart ltac:(lia) Hend') as (i' & -> & Hi' & Hci').
    apply (Hnone (firstn i' upath)).
    + exists i'. split; [assumption | reflexivity].
    + rewrite !length_firstn. lia.
    + rewrite Hmarker by lia.
      destruct (Nat.ltb_spec (length pre + i' + strlen HIDETAG) PATHLEN_MAX);
        [reflexivity | lia].
Qed.

End Prefixes.

Lemma component_end_in_ends p i :
  component_end p i = true -> In i (component_ends p).
Proof.
  intros Hi. unfold component_ends. apply filter_In. split; [| exact Hi].
  apply component_end_spec in Hi as (Hr & _ & _). apply in_seq. lia.
Qed.

Lemma marker_path_some PATHLEN_MAX HIDETAG METADIR b upath m :
  marker_path PATHLEN_MAX HIDETAG METADIR b upath = Some m ->
  exists wp, build_path PATHLEN_MAX [path b; METADIR; upath] = Done (0%Z, wp)
             /\ length wp + strlen HIDETAG < PATHLEN_MAX
             /\ m = wp ++ HIDETAG.
Proof.
  unfold marker_path. intros Hm.
  destruct (build_path PATHLEN_MAX [path b; METADIR; upath]) as [[r wp] | |];
    try discriminate.
  destruct r; try discriminate.
  destruct (Nat.ltb_spec (strlen wp + strlen HIDETAG) PATHLEN_MAX); [| discriminate].
  injection Hm as <-. exists wp. repeat split. assumption.
Qed.

(** The marker path that the code builds is the marker of the
    specification, if that fits in a path buffer. *)
Lemma marker_path_marker_of (PATHLEN_MAX : nat) (HIDETAG METADIR : cstr)
      (b : branch_entry_t) (q : cstr) :
  path b <> [] ->
  marker_path PATHLEN_MAX HIDETAG METADIR b q
  = if length (marker_of HIDETAG METADIR b q) <? PATHLEN_MAX
    then Some (marker_of HIDETAG METADIR b q) else None.
Proof.
  intros Hne. unfold marker_path, marker_of. rewrite length_app. unfold strlen.
  destruct (Nat.ltb_spec (length (join (join (path b) METADIR) q) + length HIDETAG)
                         PATHLEN_MAX) as [Hfit | Hlong].
  - rewrite build_path_fits; [| exact Hne | cbn [fold_left]; lia].
    cbn [fold_left].
    destruct (Nat.ltb_spec (length (join (join (path b) METADIR) q) + length HIDETAG)
                           PATHLEN_MAX); [reflexivity | lia].
  - destruct (build_path PATHLEN_MAX [path b; METADIR; q]) as [[r wp] | |] eqn:E;
      try reflexivity.
    destruct r; try reflexivity.
    apply build_path_done in E as (_ & -> & _). cbn [fold_left].
    destruct (Nat.ltb_spec (length (join (join (path b) METADIR) q) + length HIDETAG)
                           PATHLEN_MAX); [lia | reflexivity].
Qed.

(** C1, as the code has it.  With copy-on-write on, a branch whose root ends
    with a slash and is [path_len] bytes long, [METADIR] relative and ending
    with a slash, and a union path that with the root and [METADIR] before
    it fits in a path buffer: if the marker of some prefix of the path that
    ends with a component (the path itself, if it does not end with a
    slash) exists in the branch and fits in a path buffer, [path_hidden]
    returns 1, whether or not the path itself has a marker; and if the
    marker of the whole path fits in a path buffer and neither such a
    prefix nor the whole path has a marker, it returns 0. *)
Theorem path_hidden_finds_ancestor_marker :
  forall (PATHLEN_MAX : nat) (HIDETAG METADIR : cstr) (fsys : Type) (host : Host fsys)
         (uopt : uopt_t) (s : fsys) (upath : cstr) (branch : Z) (b : branch_entry_t),
    cow_enabled uopt = true ->
    branch_at uopt branch = Done b ->
    path_len b = strlen (path b) ->
    ends_with_slash (path b) = true ->
    ends_with_slash METADIR = true ->
    is_slash (hd NUL METADIR) = false ->
    length (join (join (path b) METADIR) upath) < PATHLEN_MAX ->
    ((exists q, ancestor_prefix q upath
                /\ length (marker_of HIDETAG METADIR b q) < PATHLEN_MAX
                /\ lstat s (marker_of HIDETAG METADIR b q) <> None) ->
     path_hidden PATHLEN_MAX HIDETAG METADIR uopt s upath branch = Done 1%Z)
    /\ (length (marker_of HIDETAG METADIR b upath) < PATHLEN_MAX ->
        (forall q, ancestor_prefix q upath \/ q = upath ->
                   lstat s (marker_of HIDETAG METADIR b q) = None) ->
        path_hidden PATHLEN_MAX HIDETAG METADIR uopt s upath branch = Done 0%Z).
Proof.
  intros PATHLEN_MAX HIDETAG METADIR fsys host uopt s upath branch b
         Hcow Hb Hlen Hroot Hmeta Hrel Hfits.
  pose proof (last_slash_nonempty (path b) Hroot) as Hne.
  assert (Hbuilt : build_path PATHLEN_MAX [path b; METADIR; upath]
                   = Done (0%Z, join (join (path b) METADIR) upath)).
  { now apply (build_path_fits PATHLEN_MAX (path b) [METADIR; upath]). }
  split.
  - intros (q & Hq & Hfit & Hex).
    apply (path_hidden_prefix_marked PATHLEN_MAX HIDETAG METADIR uopt s upath branch b
             Hcow Hb Hlen Hroot Hmeta Hrel _ Hbuilt q (marker_of HIDETAG METADIR b q));
      [exact Hq | | exact Hex].
    rewrite (marker_path_marker_of _ _ _ _ _ Hne).
    destruct (Nat.ltb_spec (length (marker_of HIDETAG METADIR b q)) PATHLEN_MAX);
      [reflexivity | lia].
  - intros Hfull Hnone.
    apply (path_hidden_nothing_marked PATHLEN_MAX HIDETAG METADIR uopt s upath branch b
             Hcow Hb Hlen Hroot Hmeta Hrel _ Hbuilt).
    + unfold marker_of in Hfull. rewrite length_app in Hfull. exact Hfull.
    + intros q m Hq Hm. rewrite (marker_path_marker_of _ _ _ _ _ Hne) in Hm.
      destruct (length (marker_of HIDETAG METADIR b q) <? PATHLEN_MAX); [| discriminate].
      injection Hm as <-. now apply Hnone.
Qed.

Lemma path_hidden_finds_ancestor_marker_witness :
  path_hidden Mount.PATHLEN_MAX Mount.HIDETAG Mount.METADIR Mount.uopt
              Mount.fs1 (str "/dir/file") 0
  = Done 1%Z
  /\ path_hidden Mount.PATHLEN_MAX Mount.HIDETAG Mount.METADIR Mount.uopt
                 Mount.fs0 (str "/dir/file") 0
     = Done 0%Z.
Proof.
  split.
  - refine (proj1 (path_hidden_finds_ancestor_marker
                     Mount.PATHLEN_MAX Mount.HIDETAG Mount.METADIR _ _ Mount.uopt
                     Mount.fs1 (str "/dir/file") 0 (Mount.branch "/rw/")
                     _ _ _ _ _ _ _) _);
      try reflexivity; [vm_compute; lia |].
    exists (str "/dir").
    split; [exists 4; split; reflexivity |].
    split; [vm_compute; lia | discriminate].
  - refine (proj2 (path_hidden_finds_ancestor_marker
                     Mount.PATHLEN_MAX Mount.HIDETAG Mount.METADIR _ _ Mount.uopt
                     Mount.fs0 (str "/dir/file") 0 (Mount.branch "/rw/")
                     _ _ _ _ _ _ _) _ _);
      try reflexivity; try (vm_compute; lia).
    intros q [(i & Hi & ->) | ->].
    + apply component_end_in_ends in Hi. vm_compute in Hi.
      destruct Hi as [<- | [<- | []]]; reflexivity.
    + reflexivity.
Defined.

(** C1 fails as stated, in two ways.  [/dir] has a marker in branch 0, and
    [path_hidden] returns 0 for a path under [/dir] that is too long for
    its marker path to be built.  And [/dir/], the path with a slash at its
    end, has its marker in branch 0, the one that [hide_dir] makes for it,
    and [path_hidden] returns 0 for [/dir/]: the walk looks at the ends of
    components only. *)
Lemma path_hidden_misses_marker_of_long_path :
  (ancestor_prefix (str "/dir") Mount.dir_deeper
   /\ marker_of Mount.HIDETAG Mount.METADIR (Mount.branch "/rw/") (str "/dir")
      = str "/rw/.unionfs/dir_HIDDEN~"
   /\ lstat Mount.fs1 (str "/rw/.unionfs/dir_HIDDEN~") <> None
   /\ path_hidden Mount.PATHLEN_MAX Mount.HIDETAG Mount.METADIR Mount.uopt
                  Mount.fs1 Mount.dir_deeper 0
      = Done 0%Z)
  /\ (marker_of Mount.HIDETAG Mount.METADIR (Mount.branch "/rw/") (str "/dir/")
      = str "/rw/.unionfs/dir/_HIDDEN~"
      /\ (exists s1,
             hide_dir Mount.PATHLEN_MAX Mount.HIDETAG Mount.METADIR Mount.uopt
                      Mount.fs0 (str "/dir/") 0 = Done (0%Z, s1)
             /\ Posix.entries s1 = Posix.entries Mount.fs3)
      /\ lstat Mount.fs3 (str "/rw/.unionfs/dir/_HIDDEN~") <> None
      /\ path_hidden Mount.PATHLEN_MAX Mount.HIDETAG Mount.METADIR Mount.uopt
                     Mount.fs3 (str "/dir/") 0
         = Done 0%Z).
Proof.
  split.
  - split; [exists 4; split; vm_compute; reflexivity |].
    split; [reflexivity |].
    split; [discriminate | vm_compute; reflexivity].
  - split; [reflexivity |].
    split; [eexists; split; vm_compute; reflexivity |].
    split; [discriminate | vm_compute; reflexivity].
Qed.

(** C10, as the code has it.  When the marker path of the whole union path
    cannot be built, [path_hidden] returns 0.  When it can, in the setting
    of C1, and the marker name of some prefix that ends with a component
    does not fit in a path buffer, [path_hidden] returns [-ENAMETOOLONG],
    provided no shorter such prefix has a marker. *)
Theorem path_hidden_name_too_long :
  forall (PATHLEN_MAX : nat) (HIDETAG METADIR : cstr) (fsys : Type) (host : Host fsys)
         (uopt : uopt_t) (s : fsys) (upath : cstr) (branch : Z) (b : branch_entry_t),
    cow_enabled uopt = true ->
    branch_at uopt branch = Done b ->
    (forall r buf,
        build_path PATHLEN_MAX [path b; METADIR; upath] = Done (r, buf) ->
        r <> 0%Z ->
        path_hidden PATHLEN_MAX HIDETAG METADIR uopt s upath branch = Done 0%Z)
    /\ (forall wp q,
           path_len b = strlen (path b) ->
           ends_with_slash (path b) = true ->
           ends_with_slash METADIR = true ->
           is_slash (hd NUL METADIR) = false ->
           build_path PATHLEN_MAX [path b; METADIR; upath] = Done (0%Z, wp) ->
           ancestor_prefix q upath ->
           marker_path PATHLEN_MAX HIDETAG METADIR b q = None ->
           (forall q' m, ancestor_prefix q' upath -> length q' < length q ->
                         marker_path PATHLEN_MAX HIDETAG METADIR b q' = Some m ->
                         lstat s m = None) ->
           path_hidden PATHLEN_MAX HIDETAG METADIR uopt s upath branch
           = Done (- ENAMETOOLONG)%Z).
Proof.
  intros PATHLEN_MAX HIDETAG METADIR fsys host uopt s upath branch b Hcow Hb.
  split.
  - intros r buf Hrun Hr. unfold path_hidden, BUILD_PATH.
    rewrite Hcow, Hb. cbn [negb bind]. rewrite Hrun. cbn [bind].
    destruct (Z.eqb_spec r 0); [contradiction | reflexivity].
  - intros wp q Hlen Hroot Hmeta Hrel Hbuilt Hq Hm Hnone.
    exact (path_hidden_prefix_too_long PATHLEN_MAX HIDETAG METADIR uopt s upath branch b
             Hcow Hb Hlen Hroot Hmeta Hrel wp Hbuilt q Hq Hm Hnone).
Qed.

Lemma path_hidden_name_too_long_witness :
  path_hidden Mount.PATHLEN_MAX Mount.HIDETAG Mount.METADIR Mount.uopt
              Mount.fs0 Mount.deeper 0
  = Done 0%Z
  /\ path_hidden Mount.PATHLEN_MAX Mount.HIDETAG Mount.METADIR Mount.uopt
                 Mount.fs0 Mount.deep 0
     = Done (- ENAMETOOLONG)%Z.
Proof.
  split.
  - refine (proj1 (path_hidden_name_too_long
                     Mount.PATHLEN_MAX Mount.HIDETAG Mount.METADIR _ _ Mount.uopt
                     Mount.fs0 Mount.deeper 0 (Mount.branch "/rw/") _ _)
                  (- ENAMETOOLONG)%Z (str "/rw/.unionfs") _ _);
      [reflexivity | reflexivity | vm_compute; reflexivity | discriminate].
  - refine (proj2 (path_hidden_name_too_long
                     Mount.PATHLEN_MAX Mount.HIDETAG Mount.METADIR _ _ Mount.uopt
                     Mount.fs0 Mount.deep 0 (Mount.branch "/rw/") _ _)
                  (str "/rw/.unionfs" ++ Mount.deep) Mount.deep _ _ _ _ _ _ _ _);
      try reflexivity.
    + exists 1004. split; vm_compute; reflexivity.
    + intros q' m (i & Hi & ->) Hshort.
      apply component_end_in_ends in Hi.
      vm_compute in Hi. 
      destruct Hi as [<- | [<- | [<- | [<- | []]]]];
        vm_compute; intros [= <-]; reflexivity.
Defined.

(** C10 fails as stated: the marker name of a path under [/dir], with
    [/rw/.unionfs] before it and the tag behind it, reaches the capacity of
    a path buffer, and [path_hidden] returns 1 for it, for the marker of
    [/dir]. *)
Lemma path_hidden_hidden_before_too_long :
  exists wp,
    build_path Mount.PATHLEN_MAX [str "/rw/"; Mount.METADIR; Mount.dir_deep] = Done (0%Z, wp)
    /\ Mount.PATHLEN_MAX <= strlen wp + strlen Mount.HIDETAG
    /\ ancestor_prefix Mount.dir_deep Mount.dir_deep
    /\ lstat Mount.fs1 (str "/rw/.unionfs/dir_HIDDEN~") <> None
    /\ path_hidden Mount.PATHLEN_MAX Mount.HIDETAG Mount.METADIR Mount.uopt
                   Mount.fs1 Mount.dir_deep 0
       = Done 1%Z
    /\ Done 1%Z <> Done (- ENAMETOOLONG)%Z.
Proof.
  exists (str "/rw/.unionfs" ++ Mount.dir_deep).
  split; [vm_compute; reflexivity |].
  split; [vm_compute; lia |].
  split; [exists 1008; split; vm_compute; reflexivity |].
  split; [discriminate |].
  split; [vm_compute; reflexivity | discriminate].
Qed.

(* ================================================================== *)
(** * The components of the paths that are built *)

Lemma push_app cur rest more :
  Posix.push cur (rest ++ more) = Posix.push cur rest ++ more.
Proof. destruct cur; reflexivity. Qed.

Lemma split_app_slash x y :
  Posix.split (x ++ slash :: y)
  = (fst (Posix.split x), snd (Posix.split x) ++ Posix.comps y).
Proof.
  induction x as [| c x IH].
  - cbn [app Posix.split fst snd]. unfold Posix.comps.
    destruct (Posix.split y) as [cur rest]. reflexivity.
  - cbn [app Posix.split]. rewrite IH.
    destruct (Posix.split x) as [cur rest]. cbn [fst snd].
    destruct (is_slash c); cbn [fst snd]; [| reflexivity].
    now rewrite push_app.
Qed.

(** A slash between two strings separates their components. *)
Lemma comps_app_slash x y :
  Posix.comps (x ++ slash :: y) = Posix.comps x ++ Posix.comps y.
Proof.
  unfold Posix.comps at 1 2. rewrite split_app_slash.
  destruct (Posix.split x) as [cur rest]. cbn [fst snd]. apply push_app.
Qed.

Lemma comps_slash_head y : Posix.comps (slash :: y) = Posix.comps y.
Proof. apply (comps_app_slash [] y). Qed.

Lemma comps_slash_last x : Posix.comps (x ++ [slash]) = Posix.comps x.
Proof. rewrite comps_app_slash. apply app_nil_r. Qed.

Lemma split_no_slash t : no_slash t = true -> Posix.split t = (t, []).
Proof.
  induction t as [| c t IH]; cbn [no_slash forallb Posix.split]; [reflexivity |].
  intros H. apply andb_true_iff in H as [Hc Ht]. apply negb_true_iff in Hc.
  rewrite (IH Ht), Hc. reflexivity.
Qed.

(** A name is its own single component. *)
Lemma comps_name t : no_slash t = true -> t <> [] -> Posix.comps t = [t].
Proof.
  intros Ht Hne. unfold Posix.comps. rewrite (split_no_slash t Ht).
  destruct t; [contradiction | reflexivity].
Qed.

Lemma slash_head (b : cstr) : is_slash (hd NUL b) = true -> exists b', b = slash :: b'.
Proof.
  destruct b as [| c b']; [discriminate |]. cbn [hd]. intros H.
  apply is_slash_true in H. subst c. now exists b'.
Qed.

Lemma slash_last (a : cstr) : is_slash (last a NUL) = true -> a = removelast a ++ [slash].
Proof.
  intros H. pose proof (last_slash_nonempty a H) as Hne.
  apply is_slash_true in H. rewrite <- H. apply app_removelast_last. exact Hne.
Qed.

(** [build_path] keeps the components of its segments. *)
Lemma comps_join a b : Posix.comps (join a b) = Posix.comps a ++ Posix.comps b.
Proof.
  unfold join.
  destruct (is_slash (last a NUL)) eqn:Ea, (is_slash (hd NUL b)) eqn:Eb; cbn [andb negb].
  - destruct (slash_head b Eb) as [b' ->]. rewrite (slash_last a Ea) at 2.
    now rewrite comps_app_slash, comps_slash_last, comps_slash_head.
  - rewrite (slash_last a Ea) at 1 2. rewrite <- app_assoc. cbn [app].
    now rewrite comps_app_slash, comps_slash_last.
  - destruct (slash_head b Eb) as [b' ->].
    now rewrite comps_app_slash, comps_slash_head.
  - apply comps_app_slash.
Qed.

Lemma join_app a m t : m <> [] -> join a m ++ t = join a (m ++ t).
Proof.
  intros Hne. unfold join.
  assert (Hhd : hd NUL (m ++ t) = hd NUL m) by (destruct m; [contradiction | reflexivity]).
  rewrite Hhd. destruct (is_slash (last a NUL) && is_slash (hd NUL m)).
  - now rewrite <- app_assoc.
  - destruct (negb (is_slash (last a NUL)) && negb (is_slash (hd NUL m)));
      rewrite <- app_assoc; reflexivity.
Qed.

(** The components up to the end of a component are the first components. *)
Lemma comps_component_end p e :
  component_end p e = true ->
  Posix.comps p = Posix.comps (firstn e p) ++ Posix.comps (skipn e p).
Proof.
  intros He. apply component_end_spec in He as (Hr & _ & Ha).
  destruct (Nat.eq_dec e (length p)) as [-> | Hne].
  - rewrite firstn_all, skipn_all. symmetry. apply app_nil_r.
  - specialize (Ha ltac:(lia)).
    assert (H0 : nth 0 (skipn e p) NUL = nth e p NUL)
      by (rewrite nth_skipn; f_equal; lia).
    rewrite <- H0 in Ha. clear H0.
    rewrite <- (firstn_skipn e p) at 1.
    destruct (skipn e p) as [| c r] eqn:Es; [discriminate |].
    cbn [nth] in Ha. apply is_slash_true in Ha. subst c.
    now rewrite comps_app_slash, comps_slash_head.
Qed.

Lemma strrchr_none_no_slash s : strrchr s slash = None -> no_slash s = true.
Proof.
  induction s as [| x s IH]; cbn [strrchr no_slash forallb]; [reflexivity |].
  destruct (strrchr s slash); [discriminate |].
  fold (is_slash x). destruct (is_slash x); [discriminate |].
  intros _. apply IH. reflexivity.
Qed.

(** [u_dirname] cuts at the last slash: what it cuts off is a slash and a
    name. *)
Lemma strrchr_some_split s : forall ri,
  strrchr s slash = Some ri ->
  exists base, s = firstn ri s ++ slash :: base /\ no_slash base = true.
Proof.
  induction s as [| x s IH]; intros ri; cbn [strrchr]; [discriminate |].
  destruct (strrchr s slash) as [i |] eqn:Es.
  - intros [= <-]. destruct (IH i eq_refl) as (base & E & Hb).
    exists base. split; [| exact Hb]. cbn [firstn app]. now rewrite <- E.
  - fold (is_slash x). destruct (is_slash x) eqn:Ex; [| discriminate].
    intros [= <-]. exists s. apply is_slash_true in Ex. subst x.
    split; [reflexivity | now apply strrchr_none_no_slash].
Qed.

Lemma no_slash_app x y : no_slash (x ++ y) = no_slash x && no_slash y.
Proof. apply forallb_app. Qed.

Lemma join_has_slash a u : ends_with_slash a = true -> no_slash (join a u) = false.
Proof.
  unfold ends_with_slash, join. intros Ha. rewrite Ha. cbn [negb andb].
  destruct (is_slash (hd NUL u)) eqn:Eu.
  - destruct (slash_head u Eu) as [u' ->]. rewrite no_slash_app.
    cbn [no_slash forallb]. change (is_slash slash) with true. cbn [negb andb].
    apply andb_false_r.
  - rewrite (slash_last a Ha), <- app_assoc, !no_slash_app.
    cbn [no_slash forallb app]. change (is_slash slash) with true. cbn [negb andb].
    apply andb_false_r.
Qed.

Lemma dirname_of_join a u :
  ends_with_slash a = true ->
  exists base,
    join a u = u_dirname (join a u) ++ slash :: base /\ no_slash base = true.
Proof.
  intros Ha. unfold u_dirname.
  destruct (strrchr (join a u) slash) as [ri |] eqn:Es.
  - apply strrchr_some_split. exact Es.
  - apply strrchr_none_no_slash in Es. rewrite join_has_slash in Es by assumption.
    discriminate.
Qed.

(* ================================================================== *)
(** * The host model: entries lie in directories *)

Lemma find_in k es v : Posix.find k es = Some v -> In (k, v) es.
Proof.
  induction es as [| [k' v'] es IH]; cbn [Posix.find]; [discriminate |].
  destruct (Posix.key_eq_dec k k') as [-> | _].
  - intros [= ->]. left. reflexivity.
  - intros H. right. now apply IH.
Qed.

Lemma lookup_some_is_dir es k : Posix.is_dir es k = true -> Posix.lookup es k <> None.
Proof. unfold Posix.is_dir. destruct (Posix.lookup es k); [discriminate | discriminate]. Qed.

Lemma wf_parent es k v :
  Posix.wf es = true -> Posix.find k es = Some v ->
  k <> [] /\ Posix.is_dir es (removelast k) = true.
Proof.
  intros Hwf Hk. apply find_in in Hk.
  unfold Posix.wf in Hwf. rewrite forallb_forall in Hwf.
  specialize (Hwf _ Hk). cbn [fst] in Hwf.
  destruct k; [discriminate |]. split; [discriminate | exact Hwf].
Qed.

(** In such a state whatever lies above an entry is there. *)
Lemma wf_ancestor es :
  Posix.wf es = true ->
  forall r k, Posix.lookup es (k ++ r) <> None -> Posix.lookup es k <> None.
Proof.
  intros Hwf r. induction r as [| x r IH] using rev_ind; intros k Hk.
  - now rewrite app_nil_r in Hk.
  - apply IH. rewrite app_assoc in Hk.
    destruct (Posix.lookup es ((k ++ r) ++ [x])) as [v |] eqn:El; [| contradiction].
    assert (Hf : Posix.find ((k ++ r) ++ [x]) es = Some v).
    { destruct ((k ++ r) ++ [x]) eqn:E; [| exact El].
      apply app_eq_nil in E as [_ E]. discriminate. }
    destruct (wf_parent _ _ _ Hwf Hf) as [_ Hd].
    rewrite removelast_last in Hd. now apply lookup_some_is_dir.
Qed.

Lemma is_dir_add es k v k' :
  Posix.lookup es k = None ->
  Posix.is_dir es k' = true ->
  Posix.is_dir ((k, v) :: es) k' = true.
Proof.
  unfold Posix.is_dir, Posix.lookup. intros Hk Hd.
  destruct k' as [| c k']; [exact Hd |]. cbn [Posix.find].
  destruct (Posix.key_eq_dec (c :: k') k) as [E | _]; [| exact Hd].
  subst k. rewrite Hk in Hd. discriminate.
Qed.

Lemma wf_add es k v :
  Posix.wf es = true ->
  Posix.lookup es k = None ->
  Posix.is_dir es (removelast k) = true ->
  Posix.wf ((k, v) :: es) = true.
Proof.
  intros Hwf Hk Hd. unfold Posix.wf. cbn [forallb fst].
  apply andb_true_iff. split.
  - destruct k as [| c k]; [discriminate |].
    now apply is_dir_add.
  - unfold Posix.wf in Hwf. rewrite forallb_forall in Hwf |- *.
    intros e He. specialize (Hwf e He).
    destruct (fst e); [discriminate |]. now apply is_dir_add.
Qed.

Lemma wf_mkdir (s : Posix.state) p :
  Posix.wf (Posix.entries s) = true ->
  Posix.wf (Posix.entries (fst (Posix.p_mkdir s p))) = true.
Proof.
  intros Hwf. unfold Posix.p_mkdir.
  destruct (Posix.lookup (Posix.entries s) (Posix.comps p)) eqn:El; [exact Hwf |].
  destruct (Posix.is_dir (Posix.entries s) (removelast (Posix.comps p))) eqn:Ed;
    [| exact Hwf].
  now apply wf_add.
Qed.

Lemma wf_open_creat (s : Posix.state) p :
  Posix.wf (Posix.entries s) = true ->
  Posix.wf (Posix.entries (fst (Posix.p_open_creat s p))) = true.
Proof.
  intros Hwf. unfold Posix.p_open_creat.
  destruct (Posix.lookup (Posix.entries s) (Posix.comps p)) as [st |] eqn:El.
  - destruct (st_isdir st); exact Hwf.
  - destruct (Posix.is_dir (Posix.entries s) (removelast (Posix.comps p))) eqn:Ed;
      [| exact Hwf].
    now apply wf_add.
Qed.

Lemma wf_path_create_dirs PATHLEN_MAX (root dname : cstr) ends : forall s : Posix.state,
  Posix.wf (Posix.entries s) = true ->
  Posix.wf (Posix.entries (path_create_dirs PATHLEN_MAX root dname ends s)) = true.
Proof.
  induction ends as [| e ends IH]; intros s Hwf; cbn [path_create_dirs]; [exact Hwf |].
  destruct (BUILD_PATH PATHLEN_MAX [root; firstn e dname]) as [[r p] | |]; try exact Hwf.
  destruct r; try exact Hwf.
  destruct (lstat s p); apply IH; [exact Hwf |].
  apply wf_mkdir. exact Hwf.
Qed.

(** Where all the directories are there, none is made. *)
Lemma path_create_dirs_present PATHLEN_MAX {fsys : Type} {host : Host fsys}
      (root dname : cstr) ends (s : fsys) :
  (forall e p, In e ends ->
               BUILD_PATH PATHLEN_MAX [root; firstn e dname] = Done (0%Z, p) ->
               lstat s p <> None) ->
  path_create_dirs PATHLEN_MAX root dname ends s = s.
Proof.
  induction ends as [| e ends IH]; intros Hall; cbn [path_create_dirs]; [reflexivity |].
  destruct (BUILD_PATH PATHLEN_MAX [root; firstn e dname]) as [[r p] | |] eqn:Eb;
    try reflexivity.
  destruct r; try reflexivity.
  destruct (lstat s p) eqn:El.
  - apply IH. intros e' p' He'. apply Hall. now right.
  - exfalso. apply (Hall e p); [now left | exact Eb | exact El].
Qed.

(* ================================================================== *)
(** * general.c: do_create_whiteout *)

(** What a run of [do_create_whiteout] that returns 0 has done. *)
Lemma do_create_whiteout_done PATHLEN_MAX HIDETAG METADIR {fsys : Type} {host : Host fsys}
      uopt (s s1 : fsys) upath branch_rw mode :
  do_create_whiteout PATHLEN_MAX HIDETAG METADIR uopt s upath branch_rw mode
  = Done (0%Z, s1) ->
  exists b metapath p,
    branch_at uopt branch_rw = Done b
    /\ build_path PATHLEN_MAX [METADIR; upath] = Done (0%Z, metapath)
    /\ build_path PATHLEN_MAX [path b; metapath] = Done (0%Z, p)
    /\ strlen p + (strlen HIDETAG + 1) <= PATHLEN_MAX
    /\ let sa := path_create_dirs PATHLEN_MAX (path b) (u_dirname metapath)
                                  (component_ends (u_dirname metapath)) s in
       match mode with
       | WHITEOUT_FILE =>
           exists fd, fd <> (-1)%Z
                      /\ snd (open_creat sa (p ++ HIDETAG)) = fd
                      /\ close (fst (open_creat sa (p ++ HIDETAG))) fd = (s1, 0%Z)
       | WHITEOUT_DIR => mkdir sa (p ++ HIDETAG) = (s1, 0%Z)
       end.
Proof.
  unfold do_create_whiteout, BUILD_PATH, path_create_cutlast. intros Hrun.
  destruct (build_path PATHLEN_MAX [METADIR; upath]) as [[r metapath] | |] eqn:Ebm;
    cbn [bind] in Hrun; try discriminate.
  destruct (Z.eqb_spec r 0) as [-> | _]; cbn [negb] in Hrun; [| discriminate].
  destruct (branch_at uopt branch_rw) as [b | |] eqn:Eb; cbn [bind] in Hrun;
    try discriminate.
  destruct (build_path PATHLEN_MAX [path b; metapath]) as [[r p] | |] eqn:Ebp;
    cbn [bind] in Hrun; try discriminate.
  destruct (Z.eqb_spec r 0) as [-> | _]; cbn [negb] in Hrun; [| discriminate].
  unfold store_n in Hrun.
  destruct (Nat.eqb_spec (strlen HIDETAG + 1) 0) as [| _]; [lia |].
  destruct (Nat.leb_spec (strlen p + (strlen HIDETAG + 1)) PATHLEN_MAX) as [Hfit |];
    cbn [orb bind] in Hrun; [| discriminate].
  exists b, metapath, p.
  split; [first [reflexivity | assumption] |].
  split; [first [reflexivity | assumption] |].
  split; [first [reflexivity | assumption] |].
  split; [exact Hfit |].
  cbv zeta. destruct mode.
  - destruct (open_creat _ (p ++ HIDETAG)) as [s' fd]. cbn [fst snd].
    destruct (Z.eqb_spec fd (-1)) as [| Hfd]; [discriminate |].
    exists fd. split; [exact Hfd |]. split; [reflexivity |].
    destruct (close s' fd) as [s'' res]. now injection Hrun as -> ->.
  - destruct (mkdir _ (p ++ HIDETAG)) as [s' res]. now injection Hrun as -> ->.
Qed.

Section Whiteout.

Variable PATHLEN_MAX : nat.
Variable HIDETAG : cstr.
Variable METADIR : cstr.
Variable uopt : uopt_t.
Variable upath : cstr.
Variable branch_rw : Z.
Variable b : branch_entry_t.
Variable metapath : cstr.
Variable p : cstr.

Hypothesis at_branch : branch_at uopt branch_rw = Done b.
Hypothesis metadir_slash : ends_with_slash METADIR = true.
Hypothesis tag_nonempty : HIDETAG <> [].
Hypothesis tag_name : no_slash HIDETAG = true.
Hypothesis built_meta : build_path PATHLEN_MAX [METADIR; upath] = Done (0%Z, metapath).
Hypothesis built : build_path PATHLEN_MAX [path b; metapath] = Done (0%Z, p).
Hypothesis fits : strlen p + (strlen HIDETAG + 1) <= PATHLEN_MAX.

(** The components of the marker: those of the branch root, those of the
    directory of the metadata path, and the name with the tag. *)
Lemma marker_comps :
  exists base,
    Posix.comps (p ++ HIDETAG)
    = Posix.comps (path b) ++ Posix.comps (u_dirname metapath) ++ [base ++ HIDETAG].
Proof.
  apply build_path_done in built_meta as (_ & Emeta & _).
  apply build_path_done in built as (_ & Ep & _). cbn [fold_left] in Emeta, Ep.
  destruct (dirname_of_join METADIR upath metadir_slash) as (base & Edir & Hbase).
  rewrite <- Emeta in Edir.
  exists base. remember (u_dirname metapath) as dname eqn:Edname.
  assert (Hne : metapath <> []).
  { rewrite Edir. intros E. apply app_eq_nil in E as [_ E]. discriminate. }
  rewrite Ep, (join_app _ _ _ Hne), comps_join. f_equal.
  rewrite Edir, <- app_assoc. cbn [app]. rewrite comps_app_slash. f_equal.
  apply comps_name.
  - rewrite no_slash_app, Hbase, tag_name. reflexivity.
  - intros E. apply app_eq_nil in E as [_ E]. contradiction.
Qed.

(** Where the marker is there, so are the directories above it, and
    [path_create_cutlast] makes none. *)
Lemma path_create_dirs_marker_present (s : Posix.state) :
  Posix.wf (Posix.entries s) = true ->
  lstat s (p ++ HIDETAG) <> None ->
  path_create_dirs PATHLEN_MAX (path b) (u_dirname metapath)
                   (component_ends (u_dirname metapath)) s = s.
Proof.
  intros Hwf Hmark. apply path_create_dirs_present. intros e pe He Hpe.
  apply filter_In in He as [_ He].
  apply build_path_done in Hpe as (_ & Epe & _). cbn [fold_left] in Epe.
  destruct marker_comps as (base & Ecomps).
  cbn [lstat Posix.posix_host] in Hmark |- *. unfold Posix.p_lstat in *.
  apply (wf_ancestor _ Hwf
           (Posix.comps (skipn e (u_dirname metapath)) ++ [base ++ HIDETAG])).
  rewrite Ecomps, (comps_component_end _ _ He), Epe, comps_join in *.
  rewrite <- !app_assoc in *. exact Hmark.
Qed.

(** A call in a state in which the marker is there. *)
Lemma do_create_whiteout_marker_present (s : Posix.state) st mode :
  Posix.wf (Posix.entries s) = true ->
  lstat s (p ++ HIDETAG) = Some st ->
  do_create_whiteout PATHLEN_MAX HIDETAG METADIR uopt s upath branch_rw mode
  = match mode with
    | WHITEOUT_FILE =>
        if st_isdir st then Done ((-1)%Z, fst (Posix.fail s Posix.EISDIR))
        else Done (0%Z, s)
    | WHITEOUT_DIR => Done ((-1)%Z, fst (Posix.fail s Posix.EEXIST))
    end.
Proof.
  intros Hwf Hmark.
  unfold do_create_whiteout, BUILD_PATH, path_create_cutlast.
  rewrite built_meta. cbn [bind Z.eqb negb]. rewrite at_branch. cbn [bind].
  rewrite path_create_dirs_marker_present by (assumption || congruence).
  rewrite built. cbn [bind Z.eqb negb]. unfold store_n.
  destruct (Nat.leb_spec (strlen p + (strlen HIDETAG + 1)) PATHLEN_MAX); [| lia].
  rewrite orb_true_r. cbn [bind].
  cbn [lstat open_creat mkdir close Posix.posix_host] in *.
  unfold Posix.p_lstat in Hmark. unfold Posix.p_open_creat, Posix.p_mkdir.
  rewrite Hmark. destruct mode.
  - destruct (st_isdir st); reflexivity.
  - reflexivity.
Qed.

End Whiteout.

Lemma lookup_add es k v :
  Posix.lookup es k = None -> Posix.lookup ((k, v) :: es) k = Some v.
Proof.
  unfold Posix.lookup. destruct k as [| c k]; [discriminate |]. intros _.
  cbn [Posix.find]. destruct (Posix.key_eq_dec (c :: k) (c :: k)); [reflexivity | contradiction].
Qed.

(** After [open] with [O_CREAT] has succeeded the path is a file. *)
Lemma open_creat_file (s : Posix.state) p :
  snd (Posix.p_open_creat s p) <> (-1)%Z ->
  exists st, Posix.p_lstat (fst (Posix.p_open_creat s p)) p = Some st
             /\ st_isdir st = false.
Proof.
  unfold Posix.p_open_creat, Posix.p_lstat.
  destruct (Posix.lookup (Posix.entries s) (Posix.comps p)) as [st |] eqn:El.
  - destruct (st_isdir st) eqn:Ed; cbn [fst snd Posix.fail]; [contradiction |].
    intros _. exists st. split; assumption.
  - destruct (Posix.is_dir (Posix.entries s) (removelast (Posix.comps p)));
      cbn [fst snd Posix.fail]; [| contradiction].
    intros _. exists Posix.new_file. split; [| reflexivity].
    cbn [Posix.add Posix.entries]. now apply lookup_add.
Qed.

(** After [mkdir] has succeeded the path is a directory. *)
Lemma mkdir_dir (s s1 : Posix.state) p :
  Posix.p_mkdir s p = (s1, 0%Z) ->
  s1 = fst (Posix.p_mkdir s p) /\ Posix.p_lstat s1 p = Some Posix.new_dir.
Proof.
  intros Hrun. split; [now rewrite Hrun |]. revert Hrun.
  unfold Posix.p_mkdir, Posix.p_lstat.
  destruct (Posix.lookup (Posix.entries s) (Posix.comps p)) as [st |] eqn:El;
    [discriminate |].
  destruct (Posix.is_dir (Posix.entries s) (removelast (Posix.comps p)));
    [| discriminate].
  intros [= <-]. cbn [Posix.add Posix.entries]. now apply lookup_add.
Qed.

(** C3, as the code has it.  On the host model, in a state whose entries all
    lie in directories, with [METADIR] ending with a slash and the tag a
    name: after a call of [do_create_whiteout] that has returned 0, a second
    call for the same path, branch and kind leaves the host as it is and
    returns 0 for the file kind; for the directory kind it leaves the entries
    as they are and returns -1, with [EEXIST] from [mkdir]. *)
Theorem do_create_whiteout_again :
  forall (PATHLEN_MAX : nat) (HIDETAG METADIR : cstr) (uopt : uopt_t)
         (s s1 : Posix.state) (upath : cstr) (branch_rw : Z) (mode : whiteout),
    ends_with_slash METADIR = true ->
    HIDETAG <> [] ->
    no_slash HIDETAG = true ->
    Posix.wf (Posix.entries s) = true ->
    do_create_whiteout PATHLEN_MAX HIDETAG METADIR uopt s upath branch_rw mode
    = Done (0%Z, s1) ->
    do_create_whiteout PATHLEN_MAX HIDETAG METADIR uopt s1 upath branch_rw mode
    = match mode with
      | WHITEOUT_FILE => Done (0%Z, s1)
      | WHITEOUT_DIR =>
          Done ((-1)%Z, {| Posix.entries := Posix.entries s1;
                           Posix.last_errno := Posix.EEXIST |})
      end.
Proof.
  intros PATHLEN_MAX HIDETAG METADIR uopt s s1 upath branch_rw mode
         Hmeta Htag Hname Hwf Hrun.
  destruct (do_create_whiteout_done _ _ _ _ _ _ _ _ _ Hrun)
    as (b & metapath & p & Hb & Hbm & Hbp & Hfit & Hmode).
  cbv zeta in Hmode.
  pose proof (wf_path_create_dirs PATHLEN_MAX (path b) (u_dirname metapath)
                (component_ends (u_dirname metapath)) s Hwf) as Hwfa.
  set (sa := path_create_dirs PATHLEN_MAX (path b) (u_dirname metapath)
                              (component_ends (u_dirname metapath)) s) in *.
  destruct mode.
  - destruct Hmode as (fd & Hfd & Eopen & Eclose).
    cbn [open_creat close Posix.posix_host] in Eopen, Eclose.
    unfold Posix.p_close in Eclose. injection Eclose as Es1.
    rewrite <- Eopen in Hfd.
    destruct (open_creat_file sa (p ++ HIDETAG) Hfd) as (st & Hst & Hfile).
    pose proof (wf_open_creat sa (p ++ HIDETAG) Hwfa) as Hwf1.
    rewrite Es1 in Hst, Hwf1.
    rewrite (do_create_whiteout_marker_present PATHLEN_MAX HIDETAG METADIR uopt upath
               branch_rw b metapath p Hb Hmeta Htag Hname Hbm Hbp Hfit s1 st WHITEOUT_FILE
               Hwf1 Hst).
    rewrite Hfile. reflexivity.
  - cbn [mkdir Posix.posix_host] in Hmode.
    destruct (mkdir_dir sa s1 (p ++ HIDETAG) Hmode) as (Es1 & Hst).
    pose proof (wf_mkdir sa (p ++ HIDETAG) Hwfa) as Hwf1. rewrite <- Es1 in Hwf1.
    apply (do_create_whiteout_marker_present PATHLEN_MAX HIDETAG METADIR uopt upath
             branch_rw b metapath p Hb Hmeta Htag Hname Hbm Hbp Hfit s1 _ WHITEOUT_DIR
             Hwf1 Hst).
Qed.

Lemma do_create_whiteout_again_witness :
  exists s1,
    hide_file Mount.PATHLEN_MAX Mount.HIDETAG Mount.METADIR Mount.uopt
              Mount.fs0 (str "/note.txt") 0 = Done (0%Z, s1)
    /\ hide_file Mount.PATHLEN_MAX Mount.HIDETAG Mount.METADIR Mount.uopt
                 s1 (str "/note.txt") 0 = Done (0%Z, s1).
Proof.
  eexists. split; [vm_compute; reflexivity |].
  apply (do_create_whiteout_again
           Mount.PATHLEN_MAX Mount.HIDETAG Mount.METADIR Mount.uopt
           Mount.fs0 _ (str "/note.txt") 0 WHITEOUT_FILE);
    [reflexivity | discriminate | reflexivity | reflexivity | vm_compute; reflexivity].
Defined.

(** C3 fails as stated for the directory kind: the second [hide_dir] for the
    same path and branch returns -1. *)
Lemma hide_dir_twice_fails :
  exists s1 s2,
    hide_dir Mount.PATHLEN_MAX Mount.HIDETAG Mount.METADIR Mount.uopt
             Mount.fs0 (str "/note.txt") 0 = Done (0%Z, s1)
    /\ option_map st_isdir (lstat s1 (str "/rw/.unionfs/note.txt_HIDDEN~")) = Some true
    /\ hide_dir Mount.PATHLEN_MAX Mount.HIDETAG Mount.METADIR Mount.uopt
                s1 (str "/note.txt") 0 = Done ((-1)%Z, s2).
Proof.
  eexists. eexists. split; [vm_compute; reflexivity |].
  split; vm_compute; reflexivity.
Qed.

(* ================================================================== *)
(** * Further properties: build_path *)

(** X1.  With a first segment that is not empty, [build_path] returns 0
    exactly when the segments joined by single slashes are shorter than
    [max_len], and then the joined segments are what it leaves in the
    buffer. *)
Theorem build_path_zero_iff_joined_fits :
  forall (max_len : nat) (a : cstr) (args : list cstr) (r : cstr),
    a <> [] ->
    (build_path max_len (a :: args) = Done (0%Z, r)
     <-> r = fold_left join args a /\ length r < max_len).
Proof.
  intros max_len a args r Hne. split.
  - intros Hrun. now apply build_path_done in Hrun.
  - intros [-> Hfit]. now apply build_path_fits.
Qed.

Lemma build_path_zero_iff_joined_fits_witness :
  build_path 20 [str "/mnt"; str "foo"] = Done (0%Z, str "/mnt/foo").
Proof.
  apply (build_path_zero_iff_joined_fits 20 (str "/mnt") [str "foo"] (str "/mnt/foo"));
    [discriminate | split; [reflexivity | simpl; lia]].
Defined.

Lemma build_path_rest_too_long max_len args : forall acc,
  length acc < max_len ->
  max_len <= length (fold_left join args acc) ->
  (exists buf, build_path_rest max_len acc (length acc) args
               = Done ((- ENAMETOOLONG)%Z, buf)
               /\ length buf < max_len)
  \/ build_path_rest max_len acc (length acc) args = Undefined (StorePast max_len max_len).
Proof.
  induction args as [| arg args IH]; intros acc Hacc Hlong.
  - cbn [fold_left] in Hlong. lia.
  - cbn [build_path_rest fold_left] in *.
    assert (Hcopy : forall acc' len',
               len' = length acc' -> acc' ++ arg = join acc arg ->
               length acc' <= max_len ->
               (exists buf,
                   (if max_len <? len' + strlen arg + 1
                    then store max_len (length acc') ;;; Done ((- ENAMETOOLONG)%Z, acc')
                    else store_n max_len (length acc') (strlen arg) ;;;
                         build_path_rest max_len (acc' ++ arg) (len' + strlen arg) args)
                   = Done ((- ENAMETOOLONG)%Z, buf) /\ length buf < max_len)
               \/ (if max_len <? len' + strlen arg + 1
                   then store max_len (length acc') ;;; Done ((- ENAMETOOLONG)%Z, acc')
                   else store_n max_len (length acc') (strlen arg) ;;;
                        build_path_rest max_len (acc' ++ arg) (len' + strlen arg) args)
                  = Undefined (StorePast max_len max_len)).
    { intros acc' len' Hl Hj Hle.
      assert (Hlj : length (join acc arg) = len' + strlen arg).
      { rewrite <- Hj, length_app, Hl. reflexivity. }
      destruct (Nat.ltb_spec max_len (len' + strlen arg + 1)) as [Hfail | Hok].
      - unfold store. destruct (Nat.ltb_spec (length acc') max_len) as [Hlt | Hge].
        + left. exists acc'. split; [reflexivity | exact Hlt].
        + right. cbn [bind]. replace (length acc') with max_len by lia. reflexivity.
      - unfold store_n.
        destruct (Nat.leb_spec (length acc' + strlen arg) max_len); [| lia].
        rewrite orb_true_r. cbn [bind]. rewrite <- Hlj, Hj.
        apply IH; [lia | exact Hlong]. }
    unfold join in Hcopy |- *. unfold join in Hlong.
    destruct (is_slash (last acc NUL)) eqn:Ea, (is_slash (hd NUL arg)) eqn:Eb;
      cbn [andb negb] in *.
    + apply Hcopy; [| reflexivity |]; rewrite length_removelast_slash by assumption; lia.
    + apply Hcopy; [reflexivity | reflexivity | lia].
    + apply Hcopy; [reflexivity | reflexivity | lia].
    + unfold store. destruct (Nat.ltb_spec (length acc) max_len); [| lia]. cbn [bind].
      apply Hcopy.
      * rewrite length_app. simpl. lia.
      * rewrite <- app_assoc. reflexivity.
      * rewrite length_app. simpl. lia.
Qed.

(** X2.  When the joined segments are not shorter than [max_len],
    [build_path] does not return 0: either it returns [-ENAMETOOLONG] and
    leaves a string shorter than [max_len] in the buffer, or it has put a
    separator into the last byte of the buffer and stores the terminator at
    offset [max_len]. *)
Theorem build_path_too_long :
  forall (max_len : nat) (a : cstr) (args : list cstr),
    a <> [] ->
    0 < max_len ->
    max_len <= length (fold_left join args a) ->
    (exists buf, build_path max_len (a :: args) = Done ((- ENAMETOOLONG)%Z, buf)
                 /\ length buf < max_len)
    \/ build_path max_len (a :: args) = Undefined (StorePast max_len max_len).
Proof.
  intros max_len a args Hne Hmax Hlong. unfold build_path, store, strlen.
  destruct (Nat.ltb_spec 0 max_len); [| lia]. cbn [bind].
  destruct (Nat.eqb_spec (length a) 0) as [H0 |].
  { destruct a; [contradiction | discriminate]. }
  destruct (Nat.ltb_spec max_len (0 + length a + 1)).
  - left. exists []. split; [reflexivity | simpl; lia].
  - unfold store_n. destruct (Nat.leb_spec (0 + length a) max_len); [| lia].
    rewrite orb_true_r. cbn [bind]. apply build_path_rest_too_long; [lia | exact Hlong].
Qed.

Lemma build_path_too_long_witness :
  (exists buf, build_path 6 [str "/mnt"; str "foo"] = Done ((- ENAMETOOLONG)%Z, buf)
               /\ length buf < 6)
  \/ build_path 6 [str "/mnt"; str "foo"] = Undefined (StorePast 6 6).
Proof.
  apply (build_path_too_long 6 (str "/mnt") [str "foo"]);
    [discriminate | lia | simpl; lia].
Defined.

Lemma no_double_slash_app x : forall y,
  no_double_slash x = true ->
  no_double_slash y = true ->
  is_slash (last x NUL) && is_slash (hd NUL y) = false ->
  no_double_slash (x ++ y) = true.
Proof.
  induction x as [| c x IH]; intros y Hx Hy Hj; [exact Hy |].
  cbn [app no_double_slash] in *. apply andb_true_iff in Hx as [Hc Hx].
  apply andb_true_iff. split.
  - destruct x as [| d x]; [| exact Hc]. cbn [app last] in *. now rewrite Hj.
  - apply IH; [exact Hx | exact Hy |]. destruct x; [| exact Hj].
    cbn [last]. reflexivity.
Qed.

Lemma no_double_slash_removelast x :
  no_double_slash x = true ->
  no_double_slash (removelast x) = true
  /\ (is_slash (last x NUL) = true -> is_slash (last (removelast x) NUL) = false).
Proof.
  induction x as [| c x IH]; intros Hx; [split; [reflexivity | discriminate] |].
  cbn [no_double_slash] in Hx. apply andb_true_iff in Hx as [Hc Hx].
  destruct x as [| d x]; [split; [reflexivity | reflexivity] |].
  destruct (IH Hx) as [IHa IHb].
  change (removelast (c :: d :: x)) with (c :: removelast (d :: x)).
  change (last (c :: d :: x) NUL) with (last (d :: x) NUL).
  split.
  - cbn [no_double_slash]. apply andb_true_iff. split; [| exact IHa].
    destruct x as [| e x]; [cbn [removelast hd]; now rewrite andb_false_r |].
    exact Hc.
  - intros Hl. destruct x as [| e x].
    + cbn [removelast last] in *. cbn [hd] in Hc. rewrite Hl, andb_true_r in Hc.
      now apply negb_true_iff in Hc.
    + specialize (IHb Hl).
      change (removelast (d :: e :: x)) with (d :: removelast (e :: x)) in *.
      destruct (removelast (e :: x)) eqn:Er; [| exact IHb]. exact IHb.
Qed.

Lemma no_double_slash_join a b :
  no_double_slash a = true -> no_double_slash b = true ->
  no_double_slash (join a b) = true.
Proof.
  intros Ha Hb. unfold join.
  destruct (is_slash (last a NUL)) eqn:Ea, (is_slash (hd NUL b)) eqn:Eb; cbn [andb negb].
  - destruct (no_double_slash_removelast a Ha) as [Hr Hl].
    apply no_double_slash_app; [exact Hr | exact Hb |]. now rewrite (Hl Ea).
  - apply no_double_slash_app; [exact Ha | exact Hb |]. now rewrite Eb, andb_false_r.
  - apply no_double_slash_app; [exact Ha | exact Hb |]. now rewrite Ea.
  - apply no_double_slash_app; [exact Ha | | now rewrite Ea].
    cbn [no_double_slash hd]. rewrite Eb, andb_false_r. exact Hb.
Qed.

(** X3.  From segments none of which has two slashes in a row, [build_path]
    makes a path that has no two slashes in a row. *)
Theorem build_path_no_double_slash :
  forall (max_len : nat) (args : list cstr) (r : cstr),
    forallb no_double_slash args = true ->
    build_path max_len args = Done (0%Z, r) ->
    no_double_slash r = true.
Proof.
  intros max_len args r Hargs Hrun.
  destruct args as [| a args].
  - unfold build_path in Hrun. destruct (store max_len 0); discriminate.
  - apply build_path_done in Hrun as (_ & -> & _).
    cbn [forallb] in Hargs. apply andb_true_iff in Hargs as [Ha Hargs].
    revert a Ha. induction args as [| b args IH]; intros a Ha; [exact Ha |].
    cbn [forallb] in Hargs. apply andb_true_iff in Hargs as [Hb Hargs].
    cbn [fold_left]. apply IH; [exact Hargs |]. now apply no_double_slash_join.
Qed.

Lemma build_path_no_double_slash_witness :
  no_double_slash (str "/mnt/foo/bar") = true.
Proof.
  apply (build_path_no_double_slash 20 [str "/mnt/"; str "/foo"; str "bar"]
           (str "/mnt/foo/bar")); reflexivity.
Defined.

(** X4.  [build_path] changes slashes only: the components of the path it
    makes are the components of its segments, in their order. *)
Theorem build_path_keeps_components :
  forall (max_len : nat) (args : list cstr) (r : cstr),
    build_path max_len args = Done (0%Z, r) ->
    Posix.comps r = concat (map Posix.comps args).
Proof.
  intros max_len args r Hrun.
  destruct args as [| a args].
  - unfold build_path in Hrun. destruct (store max_len 0); discriminate.
  - apply build_path_done in Hrun as (_ & -> & _). cbn [map concat].
    revert a. induction args as [| b args IH]; intros a; cbn [fold_left map concat].
    + symmetry. apply app_nil_r.
    + rewrite IH, comps_join, <- app_assoc. reflexivity.
Qed.

Lemma build_path_keeps_components_witness :
  Posix.comps (str "/mnt/foo/bar") = [str "mnt"; str "foo"; str "bar"].
Proof.
  apply (build_path_keeps_components 20 [str "/mnt/"; str "/foo"; str "bar"]
           (str "/mnt/foo/bar")); reflexivity.
Defined.

(* ================================================================== *)
(** * Further properties: u_dirname *)

Lemma no_slash_strrchr_none s : no_slash s = true -> strrchr s slash = None.
Proof.
  induction s as [| x s IH]; cbn [no_slash forallb strrchr]; [reflexivity |].
  intros H. apply andb_true_iff in H as [Hx Hs]. rewrite (IH Hs).
  fold (is_slash x). apply negb_true_iff in Hx. now rewrite Hx.
Qed.

Lemma strrchr_last_slash d base :
  no_slash base = true -> strrchr (d ++ slash :: base) slash = Some (length d).
Proof.
  intros Hb. induction d as [| x d IH]; cbn [app strrchr length].
  - now rewrite (no_slash_strrchr_none base Hb).
  - now rewrite IH.
Qed.

Lemma strrchr_lt (s : cstr) (c : ascii) (i : nat) :
  strrchr s c = Some i -> i < length s.
Proof.
  revert i. induction s as [| x s IH]; cbn [strrchr length]; [discriminate |].
  intros i. destruct (strrchr s c) as [j |].
  - intros [= <-]. specialize (IH j eq_refl). lia.
  - destruct (Ascii.eqb x c); [intros [= <-]; lia | discriminate].
Qed.

Lemma u_dirname_run_nonempty (path : cstr) :
  path <> [] -> u_dirname_run path = Done (u_dirname path).
Proof.
  intros Hne. unfold u_dirname_run, u_dirname, store, store_n, strlen.
  destruct (strrchr path slash) as [ri |] eqn:E.
  - apply strrchr_lt in E.
    destruct (Nat.ltb_spec ri (length path + 1)); [reflexivity | lia].
  - destruct path as [| x path]; [contradiction |]. cbn [length].
    destruct (Nat.leb_spec (0 + 2) (S (length path) + 1)); [reflexivity | lia].
Qed.

(** X5.  [u_dirname] cuts a path at its last slash: of a directory part, a
    slash and a name without slash it gives the directory part, which is
    the empty string for a name directly under the root; of a name alone,
    of one byte at least, it gives ".". *)
Theorem u_dirname_cuts_last_name :
  forall (d base : cstr),
    no_slash base = true ->
    u_dirname_run (d ++ slash :: base) = Done d
    /\ u_dirname_run (slash :: base) = Done []
    /\ (base <> [] -> u_dirname_run base = Done (str ".")).
Proof.
  intros d base Hb. split; [| split].
  - rewrite u_dirname_run_nonempty by (destruct d; discriminate).
    unfold u_dirname. rewrite (strrchr_last_slash d base Hb).
    now rewrite firstn_app, firstn_all, Nat.sub_diag, app_nil_r.
  - rewrite u_dirname_run_nonempty by discriminate. unfold u_dirname.
    pose proof (strrchr_last_slash [] base Hb) as E. cbn [app length] in E.
    now rewrite E.
  - intros Hne. rewrite (u_dirname_run_nonempty base Hne). unfold u_dirname.
    now rewrite (no_slash_strrchr_none base Hb).
Qed.

Lemma u_dirname_cuts_last_name_witness :
  u_dirname_run (str "/a/b/c") = Done (str "/a/b")
  /\ u_dirname_run (str "/c") = Done []
  /\ u_dirname_run (str "c") = Done (str ".").
Proof.
  destruct (u_dirname_cuts_last_name (str "/a/b") (str "c") eq_refl)
    as (H1 & H2 & H3).
  split; [exact H1 | split; [exact H2 | apply H3; discriminate]].
Defined.

(** X14.  [u_dirname] of the empty path stores past the copy it returns:
    [strdup] gives one byte for it, there is no slash to cut at, and
    [strcpy (ret, ".")] writes two bytes; of every other path the stores
    stay inside the copy and the result is the path cut at its last
    slash, or ".". *)
Theorem u_dirname_empty_path_stores_past_copy :
  forall (path : cstr),
    u_dirname_run path
    = match path with
      | [] => Undefined (StorePast 1 1)
      | _ :: _ => Done (u_dirname path)
      end.
Proof.
  intros [| x path]; [reflexivity |].
  apply u_dirname_run_nonempty. discriminate.
Qed.

(* ================================================================== *)
(** * Further properties: the hash *)

Lemma high_nibble_bits n : (28 <= n < 32)%Z -> Z.testbit 0xF0000000 n = true.
Proof.
  intros Hn.
  assert (H : n = 28%Z \/ n = 29%Z \/ n = 30%Z \/ n = 31%Z) by lia.
  destruct H as [-> | [-> | [-> | ->]]]; reflexivity.
Qed.

Lemma below_2_28 x :
  (0 <= x)%Z -> (forall n, (28 <= n)%Z -> Z.testbit x n = false) -> (x < 2 ^ 28)%Z.
Proof.
  intros Hx Hbits.
  assert (E : x = (x mod 2 ^ 28)%Z).
  { apply Z.bits_inj'. intros n Hn. destruct (Z.lt_ge_cases n 28).
    - now rewrite Z.mod_pow2_bits_low by lia.
    - rewrite Z.mod_pow2_bits_high by lia. now apply Hbits. }
  rewrite E. apply Z.mod_pos_bound. reflexivity.
Qed.

Lemma elf_step_range h c : (0 <= elf_step h c < 2 ^ 28)%Z.
Proof.
  unfold elf_step.
  set (h1 := ((Z.shiftl h 4 + c) mod 2 ^ 32)%Z).
  assert (Hh1 : (0 <= h1 < 2 ^ 32)%Z) by (apply Z.mod_pos_bound; reflexivity).
  assert (Hhigh : forall n, (32 <= n)%Z -> Z.testbit h1 n = false).
  { intros n Hn. apply Z.mod_pow2_bits_high. lia. }
  set (g := Z.land h1 4026531840).
  assert (Hg : forall n, (28 <= n < 32)%Z -> Z.testbit g n = Z.testbit h1 n).
  { intros n Hn. unfold g. rewrite Z.land_spec, high_nibble_bits by lia.
    apply andb_true_r. }
  assert (Hg0 : (0 <= g)%Z) by (apply Z.land_nonneg; lia).
  destruct (Z.eqb_spec g 0) as [E | _].
  - split; [lia |]. apply below_2_28; [lia |]. intros n Hn.
    destruct (Z.lt_ge_cases n 32); [| now apply Hhigh].
    rewrite <- Hg, E by lia. apply Z.bits_0.
  - assert (Hx0 : (0 <= Z.lxor h1 (Z.shiftr g 24))%Z).
    { apply Z.lxor_nonneg. split; intros _; [apply Z.shiftr_nonneg; lia | lia]. }
    split; [apply Z.ldiff_nonneg; left; exact Hx0 |].
    apply below_2_28; [apply Z.ldiff_nonneg; left; exact Hx0 |].
    intros n Hn. rewrite Z.ldiff_spec, Z.lxor_spec, Z.shiftr_spec by lia.
    assert (Hgh : Z.testbit g (n + 24) = false).
    { unfold g. rewrite Z.land_spec, Hhigh by lia. reflexivity. }
    rewrite Hgh, xorb_false_r.
    destruct (Z.lt_ge_cases n 32).
    + rewrite Hg by lia. apply andb_negb_r.
    + now rewrite Hhigh.
Qed.

(** X6.  The hash never has one of its four top bits set: its value is below
    2^28, for every string and either signedness of [char]. *)
Theorem string_hash_below_2_28 :
  forall (char_is_signed : bool) (s : cstr),
    (0 <= string_hash char_is_signed s < 2 ^ 28)%Z.
Proof.
  intros sg s. unfold string_hash, elfhash. rewrite elfhash_loop_elf.
  assert (H : forall cs h, (0 <= h < 2 ^ 28)%Z ->
                           (0 <= fold_left elf_step cs h < 2 ^ 28)%Z).
  { induction cs as [| c cs IH]; intros h Hh; [exact Hh |].
    cbn [fold_left]. apply IH, elf_step_range. }
  apply H. split; [lia | reflexivity].
Qed.

Lemma elf_step_small h c :
  (0 <= h)%Z -> (0 <= c)%Z -> (h * 16 + c < 2 ^ 28)%Z ->
  elf_step h c = (h * 16 + c)%Z.
Proof.
  intros Hh Hc Hsmall. unfold elf_step.
  rewrite Z.shiftl_mul_pow2 by lia. change (2 ^ 4)%Z with 16%Z.
  rewrite Z.mod_small by (split; [lia |]; transitivity (2 ^ 28)%Z; [lia | reflexivity]).
  assert (E : Z.land (h * 16 + c) 4026531840 = 0%Z).
  { apply Z.bits_inj'. intros n Hn. rewrite Z.land_spec, Z.bits_0.
    destruct (Z.lt_ge_cases n 28).
    - change 4026531840%Z with (Z.shiftl 15 28).
      rewrite (Z.shiftl_spec_low 15 28 n) by lia. apply andb_false_r.
    - assert (Hm : (h * 16 + c)%Z = ((h * 16 + c) mod 2 ^ 28)%Z)
        by (symmetry; apply Z.mod_small; lia).
      rewrite Hm, Z.mod_pow2_bits_high by lia. reflexivity. }
  rewrite E. reflexivity.
Qed.

Lemma base16_loop_ge s : forall h,
  (0 <= h)%Z ->
  (h <= fold_left (fun h c => (h * 16 + byte_value c)%Z) s h)%Z.
Proof.
  induction s as [| c s IH]; intros h Hh; cbn [fold_left]; [lia |].
  assert (Hc : (0 <= byte_value c)%Z) by (unfold byte_value; lia).
  specialize (IH (h * 16 + byte_value c)%Z ltac:(lia)). lia.
Qed.

Lemma string_hash_bytes sg s :
  negb sg || forallb (fun c => (byte_value c <? 128)%Z) s = true ->
  string_hash sg s = elf_hash (map byte_value s).
Proof.
  intros Hbytes. unfold string_hash, elfhash, elf_hash. rewrite elfhash_loop_elf.
  f_equal. apply map_ext_in. intros c Hc. apply int_of_char_byte.
  destruct sg; cbn [negb orb] in *; [| reflexivity].
  rewrite forallb_forall in Hbytes. now apply Hbytes.
Qed.

(** X7.  Where [char] is unsigned, or no byte of the string is above 0x7F,
    and the string read as a number in base 16 is below 2^28, the hash is
    that number: nothing is folded back. *)
Theorem string_hash_small_is_base16 :
  forall (char_is_signed : bool) (s : cstr),
    negb char_is_signed || forallb (fun c => (byte_value c <? 128)%Z) s = true ->
    (base16 s < 2 ^ 28)%Z ->
    string_hash char_is_signed s = base16 s.
Proof.
  intros sg s Hbytes Hsmall.
  rewrite (string_hash_bytes sg s Hbytes).
  unfold elf_hash, base16 in *.
  assert (H : forall cs h,
             (0 <= h)%Z ->
             (fold_left (fun h c => (h * 16 + byte_value c)%Z) cs h < 2 ^ 28)%Z ->
             fold_left elf_step (map byte_value cs) h
             = fold_left (fun h c => (h * 16 + byte_value c)%Z) cs h).
  { induction cs as [| c cs IH]; intros h Hh Hlt; cbn [fold_left map]; [reflexivity |].
    cbn [fold_left] in Hlt.
    assert (Hc : (0 <= byte_value c)%Z) by (unfold byte_value; lia).
    pose proof (base16_loop_ge cs (h * 16 + byte_value c)%Z ltac:(lia)) as Hge.
    rewrite elf_step_small by lia. apply IH; [lia | exact Hlt]. }
  apply H; [lia | exact Hsmall].
Qed.

Lemma string_hash_small_is_base16_witness :
  string_hash true (str "ab") = (97 * 16 + 98)%Z.
Proof.
  apply (string_hash_small_is_base16 true (str "ab")); reflexivity.
Defined.

(* ================================================================== *)
(** * Further properties: path_hidden *)

Section HiddenTotal.

Variable PATHLEN_MAX : nat.
Variable HIDETAG : cstr.
Variable METADIR : cstr.

Context {fsys : Type} {host : Host fsys}.

Variable uopt : uopt_t.
Variable s : fsys.

Lemma filedir_hidden_total path len :
  exists v, filedir_hidden PATHLEN_MAX HIDETAG uopt s path len = Done v
            /\ (v = 0 \/ v = 1 \/ v = - ENAMETOOLONG)%Z.
Proof.
  unfold filedir_hidden.
  destruct (cow_enabled uopt); cbn [negb]; [| exists 0%Z; auto].
  set (l := if len =? 0 then strlen path else len).
  destruct (Nat.leb_spec PATHLEN_MAX (l + strlen HIDETAG));
    [exists (- ENAMETOOLONG)%Z; auto |].
  unfold store_n, store.
  destruct (Nat.leb_spec (0 + l) PATHLEN_MAX); [| lia]. rewrite orb_true_r. cbn [bind].
  destruct (Nat.leb_spec (l + strlen HIDETAG) PATHLEN_MAX); [| lia].
  rewrite orb_true_r. cbn [bind].
  destruct (Nat.ltb_spec (l + strlen HIDETAG) PATHLEN_MAX); [| lia]. cbn [bind].
  destruct (lstat s _); [exists 1%Z | exists 0%Z]; auto.
Qed.

Lemma skip_name_ge buf w : w <= skip_name buf w.
Proof.
  unfold skip_name. destruct (skip_name_from_spec (skipn w buf) w) as (k & -> & _). lia.
Qed.

Lemma skip_slashes_ge buf w : w <= skip_slashes buf w.
Proof.
  unfold skip_slashes.
  destruct (skip_slashes_from_spec (skipn w buf) w) as (k & -> & _). lia.
Qed.

(** The walk ends within the fuel it is given, from wherever it starts. *)
Lemma path_hidden_loop_total wp fuel : forall w,
  length wp - w < fuel ->
  exists v, path_hidden_loop PATHLEN_MAX HIDETAG uopt fuel s wp w = Done v
            /\ (v = 0 \/ v = 1 \/ v = - ENAMETOOLONG)%Z.
Proof.
  induction fuel as [| fuel IH]; intros w Hfuel; [lia |].
  cbn [path_hidden_loop].
  destruct (filedir_hidden_total wp (skip_name wp w)) as (v & -> & Hv). cbn [bind].
  destruct (Z.eqb_spec v 0) as [-> | Hne]; cbn [negb]; [| exists v; auto].
  pose proof (skip_name_ge wp w) as Hw1.
  pose proof (skip_slashes_ge wp (skip_name wp w)) as Hw2.
  unfold strlen.
  destruct (Nat.ltb_spec (skip_slashes wp (skip_name wp w)) (length wp)) as [Hlt |];
    [| exists 0%Z; auto].
  apply IH.
  destruct (skip_name_spec wp w ltac:(lia)) as (_ & _ & Hat).
  destruct (skip_slashes_spec wp (skip_name wp w) ltac:(lia)) as (_ & _ & Hns).
  destruct (Nat.eq_dec (skip_slashes wp (skip_name wp w)) w) as [E |]; [| lia].
  assert (E1 : skip_name wp w = w) by lia.
  rewrite E1 in *. rewrite E, Hat in Hns by lia. discriminate.
Qed.

End HiddenTotal.

Lemma length_join_lower a b : length a + length b <= length (join a b) + 1.
Proof.
  unfold join.
  destruct (is_slash (last a NUL)) eqn:Ea, (is_slash (hd NUL b)) eqn:Eb; cbn [andb negb];
    rewrite length_app; try (simpl; lia).
  rewrite length_removelast_slash by assumption.
  pose proof (last_slash_nonempty a Ea) as Hne.
  destruct a; [contradiction | simpl; lia].
Qed.

(** X8.  For a branch that exists, with [path_len] the length of its root,
    and a marker path whose construction stays inside the buffer,
    [path_hidden] starts its walk inside the string it has built, comes to
    an end, and what it returns is 0, 1 or [-ENAMETOOLONG]. *)
Theorem path_hidden_returns_hidden_or_error :
  forall (PATHLEN_MAX : nat) (HIDETAG METADIR : cstr) (fsys : Type) (host : Host fsys)
         (uopt : uopt_t) (s : fsys) (upath : cstr) (branch : Z) (b : branch_entry_t)
         (r : Z) (wp : cstr),
    branch_at uopt branch = Done b ->
    path_len b = strlen (path b) ->
    build_path PATHLEN_MAX [path b; METADIR; upath] = Done (r, wp) ->
    exists v, path_hidden PATHLEN_MAX HIDETAG METADIR uopt s upath branch = Done v
              /\ (v = 0 \/ v = 1 \/ v = - ENAMETOOLONG)%Z.
Proof.
  intros PATHLEN_MAX HIDETAG METADIR fsys host uopt s upath branch b r wp Hb Hlen Hrun.
  unfold path_hidden, BUILD_PATH.
  destruct (cow_enabled uopt); cbn [negb]; [| exists 0%Z; auto].
  rewrite Hb. cbn [bind]. rewrite Hrun. cbn [bind].
  destruct (Z.eqb_spec r 0) as [-> | ?]; cbn [negb]; [| exists 0%Z; auto].
  apply build_path_done in Hrun as (Hne & -> & _). cbn [fold_left].
  pose proof (length_join_lower (path b) METADIR) as Hlow.
  pose proof (length_join_ge (join (path b) METADIR) upath) as Hge.
  assert (Hroot : 0 < length (path b)) by (destruct (path b); [contradiction | simpl; lia]).
  rewrite Hlen. unfold strlen.
  destruct (Nat.eqb_spec (length (path b) + length METADIR) 0); [lia |].
  destruct (Nat.ltb_spec (length (join (join (path b) METADIR) upath))
                         (length (path b) + length METADIR - 1)); [lia |].
  cbn [orb]. apply path_hidden_loop_total. lia.
Qed.

Lemma path_hidden_returns_hidden_or_error_witness :
  exists v, path_hidden Mount.PATHLEN_MAX Mount.HIDETAG Mount.METADIR Mount.uopt
                        Mount.fs1 (str "/dir/file") 0 = Done v
            /\ (v = 0 \/ v = 1 \/ v = - ENAMETOOLONG)%Z.
Proof.
  apply (path_hidden_returns_hidden_or_error
           Mount.PATHLEN_MAX Mount.HIDETAG Mount.METADIR _ _ Mount.uopt Mount.fs1
           (str "/dir/file") 0 (Mount.branch "/rw/") 0%Z (str "/rw/.unionfs/dir/file"));
    reflexivity.
Defined.

Lemma component_end_extended upath x i :
  component_end upath i = true ->
  component_end (upath ++ slash :: x) i = true
  /\ firstn i (upath ++ slash :: x) = firstn i upath.
Proof.
  intros Hi. apply component_end_spec in Hi as (Hr & Hb & Ha). split.
  - apply component_end_spec. rewrite length_app. cbn [length].
    repeat split; try lia.
    + rewrite app_nth1 by lia. exact Hb.
    + intros _. destruct (Nat.eq_dec i (length upath)) as [-> | Hne].
      * rewrite nth_middle. reflexivity.
      * rewrite app_nth1 by lia. apply Ha. lia.
  - rewrite firstn_app. replace (i - length upath) with 0 by lia.
    cbn [firstn]. apply app_nil_r.
Qed.

(** X9.  What hides a path hides what lies under it: in the setting of C1,
    for a path that ends with a component, if [path_hidden] returns 1 for
    the path it returns 1 for the path with a slash and anything behind it,
    as long as the marker path of the longer path fits in a path buffer. *)
Theorem path_hidden_inherited :
  forall (PATHLEN_MAX : nat) (HIDETAG METADIR : cstr) (fsys : Type) (host : Host fsys)
         (uopt : uopt_t) (s : fsys) (upath x : cstr) (branch : Z) (b : branch_entry_t)
         (mext : cstr),
    cow_enabled uopt = true ->
    branch_at uopt branch = Done b ->
    path_len b = strlen (path b) ->
    ends_with_slash (path b) = true ->
    ends_with_slash METADIR = true ->
    is_slash (hd NUL METADIR) = false ->
    component_end upath (length upath) = true ->
    marker_path PATHLEN_MAX HIDETAG METADIR b (upath ++ slash :: x) = Some mext ->
    path_hidden PATHLEN_MAX HIDETAG METADIR uopt s upath branch = Done 1%Z ->
    path_hidden PATHLEN_MAX HIDETAG METADIR uopt s (upath ++ slash :: x) branch
    = Done 1%Z.
Proof.
  intros PATHLEN_MAX HIDETAG METADIR fsys host uopt s upath x branch b mext
         Hcow Hb Hlen Hroot Hmeta Hrel Hend Hext Hhid.
  destruct (marker_path_some _ _ _ _ _ _ Hext) as (wpe & Hbe & Hfite & _).
  destruct (whiteoutpath_shape PATHLEN_MAX HIDETAG METADIR (upath ++ slash :: x) b
              Hlen Hroot Hmeta Hrel wpe Hbe) as (pre & Ewpe & _ & _ & _ & Hmarker).
  pose proof (proj1 (component_end_spec _ _) Hend) as (Hur & _ & _).
  assert (Hlext : length (upath ++ slash :: x) = length upath + S (length x)).
  { rewrite length_app. reflexivity. }
  assert (Hlw : length wpe = length pre + (length upath + S (length x))).
  { rewrite Ewpe, length_app, Hlext. reflexivity. }
  (* the marker path of the shorter path fits too *)
  assert (Hmu : exists mu, marker_path PATHLEN_MAX HIDETAG METADIR b upath = Some mu).
  { specialize (Hmarker (length upath) ltac:(lia)).
    rewrite (proj2 (component_end_extended upath x _ Hend)), firstn_all in Hmarker.
    rewrite Hmarker.
    destruct (Nat.ltb_spec (length pre + length upath + strlen HIDETAG) PATHLEN_MAX);
      [eexists; reflexivity | lia]. }
  destruct Hmu as (mu & Hmu).
  destruct (marker_path_some _ _ _ _ _ _ Hmu) as (wpu & Hbu & Hfitu & _).
  set (marked := fun i =>
         match marker_path PATHLEN_MAX HIDETAG METADIR b (firstn i upath) with
         | Some m => match lstat s m with Some _ => true | None => false end
         | None => false
         end).
  destruct (existsb marked (component_ends upath)) eqn:Eany.
  - apply existsb_exists in Eany as (i & Hin & Hi).
    apply filter_In in Hin as [_ Hci].
    destruct (component_end_extended upath x i Hci) as [Hce Hfirst].
    unfold marked in Hi.
    destruct (marker_path PATHLEN_MAX HIDETAG METADIR b (firstn i upath)) as [m |] eqn:Em;
      [| discriminate].
    apply (path_hidden_prefix_marked PATHLEN_MAX HIDETAG METADIR uopt s
             (upath ++ slash :: x) branch b Hcow Hb Hlen Hroot Hmeta Hrel wpe Hbe
             (firstn i upath) m).
    + exists i. split; [exact Hce | symmetry; exact Hfirst].
    + exact Em.
    + destruct (lstat s m); [discriminate | discriminate].
  - exfalso.
    assert (Hnone : forall q m, ancestor_prefix q upath \/ q = upath ->
                      marker_path PATHLEN_MAX HIDETAG METADIR b q = Some m ->
                      lstat s m = None).
    { intros q m Hq Hm.
      assert (Hi : exists i, component_end upath i = true /\ q = firstn i upath).
      { destruct Hq as [Hq | ->]; [exact Hq |].
        exists (length upath). split; [exact Hend | symmetry; apply firstn_all]. }
      destruct Hi as (i & Hci & ->).
      assert (Hf : marked i = false).
      { destruct (marked i) eqn:E; [| reflexivity].
        assert (Hex : existsb marked (component_ends upath) = true).
        { apply existsb_exists. exists i. split; [| exact E].
          now apply component_end_in_ends. }
        congruence. }
      unfold marked in Hf. rewrite Hm in Hf.
      destruct (lstat s m); [discriminate | reflexivity]. }
    pose proof (path_hidden_nothing_marked PATHLEN_MAX HIDETAG METADIR uopt s upath
                  branch b Hcow Hb Hlen Hroot Hmeta Hrel wpu Hbu Hfitu Hnone) as H0.
    congruence.
Qed.

Lemma path_hidden_inherited_witness :
  path_hidden Mount.PATHLEN_MAX Mount.HIDETAG Mount.METADIR Mount.uopt
              Mount.fs1 (str "/dir" ++ slash :: str "sub/file") 0
  = Done 1%Z.
Proof.
  apply (path_hidden_inherited
           Mount.PATHLEN_MAX Mount.HIDETAG Mount.METADIR _ _ Mount.uopt Mount.fs1
           (str "/dir") (str "sub/file") 0 (Mount.branch "/rw/")
           (str "/rw/.unionfs/dir/sub/file_HIDDEN~"));
    reflexivity.
Defined.

(* ================================================================== *)
(** * Further properties: markers made and found *)

Lemma removelast_app_nonempty (a m : cstr) : m <> [] -> removelast (a ++ m) = a ++ removelast m.
Proof. intros H. now apply removelast_app. Qed.

(** Under a root and a metadata directory that end with a slash the two ways
    in which the marker path is built give the same path. *)
Lemma join_root_first a m u :
  ends_with_slash a = true ->
  ends_with_slash m = true ->
  is_slash (hd NUL m) = false ->
  join a (join m u) = join (join a m) u.
Proof.
  intros Ha Hm Hrel.
  pose proof (last_slash_nonempty m Hm) as Hne.
  rewrite (join_root_metadir a m Ha Hrel).
  pose proof (ends_with_slash_app a m Hm) as Ham.
  unfold ends_with_slash in *.
  assert (Hrm : removelast m <> [] /\ hd NUL (removelast m) = hd NUL m).
  { destruct m as [| c [| d m]]; [contradiction | | split; [discriminate | reflexivity]].
    cbn [last hd] in *. congruence. }
  destruct Hrm as [Hrne Hrhd].
  unfold join at 2 3. rewrite Hm, Ham. cbn [negb andb].
  destruct (is_slash (hd NUL u)) eqn:Eu.
  - unfold join. rewrite Ha.
    assert (Hh : hd NUL (removelast m ++ u) = hd NUL m).
    { destruct (removelast m); [contradiction | exact Hrhd]. }
    rewrite Hh, Hrel. cbn [negb andb].
    rewrite removelast_app_nonempty by assumption. now rewrite app_assoc.
  - unfold join. rewrite Ha.
    assert (Hh : hd NUL (m ++ u) = hd NUL m) by (destruct m; [contradiction | reflexivity]).
    rewrite Hh, Hrel. cbn [negb andb]. now rewrite app_assoc.
Qed.

(** X10.  A marker that has been made is found: on the host model, in the
    setting of C1, for a path that ends with a component, after
    [do_create_whiteout] has returned 0 for the path in a branch,
    [path_hidden] returns 1 for the path in that branch, for either kind of
    marker. *)
Theorem path_hidden_after_do_create_whiteout :
  forall (PATHLEN_MAX : nat) (HIDETAG METADIR : cstr) (uopt : uopt_t)
         (s s1 : Posix.state) (upath : cstr) (branch : Z) (b : branch_entry_t)
         (mode : whiteout),
    cow_enabled uopt = true ->
    branch_at uopt branch = Done b ->
    path_len b = strlen (path b) ->
    ends_with_slash (path b) = true ->
    ends_with_slash METADIR = true ->
    is_slash (hd NUL METADIR) = false ->
    component_end upath (length upath) = true ->
    do_create_whiteout PATHLEN_MAX HIDETAG METADIR uopt s upath branch mode
    = Done (0%Z, s1) ->
    path_hidden PATHLEN_MAX HIDETAG METADIR uopt s1 upath branch = Done 1%Z.
Proof.
  intros PATHLEN_MAX HIDETAG METADIR uopt s s1 upath branch b mode
         Hcow Hb Hlen Hroot Hmeta Hrel Hend Hrun.
  destruct (do_create_whiteout_done _ _ _ _ _ _ _ _ _ Hrun)
    as (b' & metapath & p & Hb' & Hbm & Hbp & Hfit & Hmode).
  rewrite Hb in Hb'. injection Hb' as <-. cbv zeta in Hmode.
  (* the marker is there *)
  assert (Hmark : lstat s1 (p ++ HIDETAG) <> None).
  { destruct mode.
    - destruct Hmode as (fd & Hfd & Eopen & Eclose).
      cbn [open_creat close Posix.posix_host] in Eopen, Eclose.
      unfold Posix.p_close in Eclose. injection Eclose as Es1.
      rewrite <- Eopen in Hfd.
      destruct (open_creat_file _ (p ++ HIDETAG) Hfd) as (st & Hst & _).
      rewrite Es1 in Hst. cbn [lstat Posix.posix_host]. congruence.
    - cbn [mkdir Posix.posix_host] in Hmode.
      destruct (mkdir_dir _ s1 (p ++ HIDETAG) Hmode) as (_ & Hst).
      cbn [lstat Posix.posix_host]. congruence. }
  (* the path that path_hidden builds is the same *)
  apply build_path_done in Hbm as (_ & Em & _).
  pose proof Hbp as Hbp'. apply build_path_done in Hbp' as (Hne & Ep & Hlp).
  cbn [fold_left] in Em, Ep.
  assert (Hwp : build_path PATHLEN_MAX [path b; METADIR; upath] = Done (0%Z, p)).
  { assert (E : fold_left join [METADIR; upath] (path b) = p).
    { cbn [fold_left]. rewrite Ep, Em. symmetry. now apply join_root_first. }
    rewrite <- E. apply build_path_fits; [exact Hne | now rewrite E]. }
  apply (path_hidden_prefix_marked PATHLEN_MAX HIDETAG METADIR uopt s1 upath branch b
           Hcow Hb Hlen Hroot Hmeta Hrel p Hwp upath (p ++ HIDETAG)).
  - exists (length upath). split; [exact Hend | symmetry; apply firstn_all].
  - unfold marker_path. rewrite Hwp.
    destruct (Nat.ltb_spec (strlen p + strlen HIDETAG) PATHLEN_MAX); [reflexivity | lia].
  - exact Hmark.
Qed.

Lemma path_hidden_after_do_create_whiteout_witness :
  exists s1,
    hide_file Mount.PATHLEN_MAX Mount.HIDETAG Mount.METADIR Mount.uopt
              Mount.fs0 (str "/note.txt") 0 = Done (0%Z, s1)
    /\ path_hidden Mount.PATHLEN_MAX Mount.HIDETAG Mount.METADIR Mount.uopt
                   s1 (str "/note.txt") 0 = Done 1%Z.
Proof.
  eexists. split; [vm_compute; reflexivity |].
  apply (path_hidden_after_do_create_whiteout
           Mount.PATHLEN_MAX Mount.HIDETAG Mount.METADIR Mount.uopt Mount.fs0 _
           (str "/note.txt") 0 (Mount.branch "/rw/") WHITEOUT_FILE);
    reflexivity.
Defined.

(* ================================================================== *)
(** * Further properties: what the calls leave alone *)

Lemma lookup_add_other es k v k' st :
  Posix.lookup es k = None ->
  Posix.lookup es k' = Some st ->
  Posix.lookup ((k, v) :: es) k' = Some st.
Proof.
  unfold Posix.lookup. intros Hk Hk'.
  destruct k' as [| c k']; [exact Hk' |]. cbn [Posix.find].
  destruct (Posix.key_eq_dec (c :: k') k) as [E | _]; [| exact Hk'].
  subst k. congruence.
Qed.

Lemma mkdir_keeps (s : Posix.state) p q st :
  Posix.p_lstat s q = Some st -> Posix.p_lstat (fst (Posix.p_mkdir s p)) q = Some st.
Proof.
  unfold Posix.p_lstat, Posix.p_mkdir. intros Hq.
  destruct (Posix.lookup (Posix.entries s) (Posix.comps p)) eqn:El; [exact Hq |].
  destruct (Posix.is_dir (Posix.entries s) (removelast (Posix.comps p))); [| exact Hq].
  cbn [fst Posix.add Posix.entries]. now apply lookup_add_other.
Qed.

Lemma open_creat_keeps (s : Posix.state) p q st :
  Posix.p_lstat s q = Some st -> Posix.p_lstat (fst (Posix.p_open_creat s p)) q = Some st.
Proof.
  unfold Posix.p_lstat, Posix.p_open_creat. intros Hq.
  destruct (Posix.lookup (Posix.entries s) (Posix.comps p)) as [st' |] eqn:El.
  - destruct (st_isdir st'); exact Hq.
  - destruct (Posix.is_dir (Posix.entries s) (removelast (Posix.comps p))); [| exact Hq].
    cbn [fst Posix.add Posix.entries]. now apply lookup_add_other.
Qed.

Lemma path_create_dirs_keeps PATHLEN_MAX (root dname : cstr) ends q st :
  forall s : Posix.state,
    Posix.p_lstat s q = Some st ->
    Posix.p_lstat (path_create_dirs PATHLEN_MAX root dname ends s) q = Some st.
Proof.
  induction ends as [| e ends IH]; intros s Hq; cbn [path_create_dirs]; [exact Hq |].
  destruct (BUILD_PATH PATHLEN_MAX [root; firstn e dname]) as [[r p] | |]; try exact Hq.
  destruct r; try exact Hq.
  destruct (lstat s p); apply IH; [exact Hq |].
  now apply mkdir_keeps.
Qed.

(** X11.  [do_create_whiteout] takes nothing away: on the host model, an
    entry that is there before a call is there after it, with the same kind
    and owner, whatever the call returns; and if before the call every entry
    lies in a directory, so it is after the call. *)
Theorem do_create_whiteout_keeps_entries :
  forall (PATHLEN_MAX : nat) (HIDETAG METADIR : cstr) (uopt : uopt_t)
         (s s1 : Posix.state) (upath : cstr) (branch_rw : Z) (mode : whiteout)
         (ret : Z),
    do_create_whiteout PATHLEN_MAX HIDETAG METADIR uopt s upath branch_rw mode
    = Done (ret, s1) ->
    (forall q st, lstat s q = Some st -> lstat s1 q = Some st)
    /\ (Posix.wf (Posix.entries s) = true -> Posix.wf (Posix.entries s1) = true).
Proof.
  intros PATHLEN_MAX HIDETAG METADIR uopt s s1 upath branch_rw mode ret.
  unfold do_create_whiteout, BUILD_PATH, path_create_cutlast. intros Hrun.
  destruct (build_path PATHLEN_MAX [METADIR; upath]) as [[r metapath] | |];
    cbn [bind] in Hrun; try discriminate.
  destruct (Z.eqb_spec r 0) as [-> | _]; cbn [negb] in Hrun;
    [| injection Hrun as _ <-; split; auto].
  destruct (branch_at uopt branch_rw) as [b | |]; cbn [bind] in Hrun; try discriminate.
  set (sa := path_create_dirs PATHLEN_MAX (path b) (u_dirname metapath)
                              (component_ends (u_dirname metapath)) s) in *.
  assert (Hka : forall q st, lstat s q = Some st -> lstat sa q = Some st).
  { intros q st Hq. now apply path_create_dirs_keeps. }
  assert (Hwa : Posix.wf (Posix.entries s) = true -> Posix.wf (Posix.entries sa) = true).
  { apply wf_path_create_dirs. }
  destruct (build_path PATHLEN_MAX [path b; metapath]) as [[r p] | |];
    cbn [bind] in Hrun; try discriminate.
  destruct (Z.eqb_spec r 0) as [-> | _]; cbn [negb] in Hrun;
    [| injection Hrun as _ <-; split; auto].
  destruct (store_n PATHLEN_MAX (strlen p) (strlen HIDETAG + 1)); cbn [bind] in Hrun;
    try discriminate.
  cbn [open_creat close mkdir Posix.posix_host] in Hrun.
  destruct mode.
  - pose proof (open_creat_keeps sa (p ++ HIDETAG)) as Hko.
    pose proof (wf_open_creat sa (p ++ HIDETAG)) as Hwo.
    destruct (Posix.p_open_creat sa (p ++ HIDETAG)) as [s' fd]. cbn [fst] in Hko, Hwo.
    destruct (fd =? -1)%Z.
    + injection Hrun as _ <-. split; [intros q st Hq; now apply Hko, Hka | auto].
    + unfold Posix.p_close in Hrun. injection Hrun as _ <-.
      split; [intros q st Hq; now apply Hko, Hka | auto].
  - pose proof (mkdir_keeps sa (p ++ HIDETAG)) as Hkm.
    pose proof (wf_mkdir sa (p ++ HIDETAG)) as Hwm.
    destruct (Posix.p_mkdir sa (p ++ HIDETAG)) as [s' res]. cbn [fst] in Hkm, Hwm.
    injection Hrun as _ <-. split; [intros q st Hq; now apply Hkm, Hka | auto].
Qed.

Lemma do_create_whiteout_keeps_entries_witness :
  exists s1,
    hide_dir Mount.PATHLEN_MAX Mount.HIDETAG Mount.METADIR Mount.uopt
             Mount.fs0 (str "/note.txt") 0 = Done (0%Z, s1)
    /\ option_map st_isdir (lstat s1 (str "/ro/note.txt")) = Some false
    /\ Posix.wf (Posix.entries s1) = true.
Proof.
  eexists. split; [vm_compute; reflexivity |].
  match goal with
  | |- _ /\ Posix.wf (Posix.entries ?s1) = true =>
      destruct (do_create_whiteout_keeps_entries
                  Mount.PATHLEN_MAX Mount.HIDETAG Mount.METADIR Mount.uopt Mount.fs0 s1
                  (str "/note.txt") 0 WHITEOUT_DIR 0%Z) as [Hkeep Hwf];
        [vm_compute; reflexivity |]
  end.
  split; [| apply Hwf; reflexivity].
  rewrite (Hkeep (str "/ro/note.txt") Posix.new_file); reflexivity.
Defined.

Lemma find_remove k es k' :
  Posix.find k' (Posix.remove k es)
  = if Posix.key_eq_dec k k' then None else Posix.find k' es.
Proof.
  induction es as [| [k0 v0] es IH]; cbn [Posix.remove filter Posix.find fst].
  - destruct (Posix.key_eq_dec k k'); reflexivity.
  - fold (Posix.remove k es).
    destruct (Posix.key_eq_dec k k0) as [E0 | N0].
    + rewrite IH. destruct (Posix.key_eq_dec k k') as [E | N]; [reflexivity |].
      destruct (Posix.key_eq_dec k' k0); [congruence | reflexivity].
    + cbn [Posix.find]. rewrite IH.
      destruct (Posix.key_eq_dec k' k0) as [E1 | N1]; [| reflexivity].
      destruct (Posix.key_eq_dec k k'); [congruence | reflexivity].
Qed.

(** After an entry is taken out, a path has the entry it had, or it is the
    path of that entry and has none. *)
Lemma del_only (s : Posix.state) k q :
  Posix.lookup (Posix.entries (Posix.del s k)) (Posix.comps q)
  = Posix.lookup (Posix.entries s) (Posix.comps q)
  \/ (Posix.lookup (Posix.entries (Posix.del s k)) (Posix.comps q) = None
      /\ Posix.comps q = k).
Proof.
  cbn [Posix.del Posix.entries]. unfold Posix.lookup.
  destruct (Posix.comps q) as [| c kq] eqn:Eq; [left; reflexivity |].
  rewrite find_remove. destruct (Posix.key_eq_dec k (c :: kq)) as [E | N].
  - right. split; [reflexivity | congruence].
  - left. reflexivity.
Qed.

Lemma unlink_only (s : Posix.state) m q :
  Posix.p_lstat (fst (Posix.p_unlink s m)) q = Posix.p_lstat s q
  \/ (Posix.p_lstat (fst (Posix.p_unlink s m)) q = None
      /\ Posix.comps q = Posix.comps m).
Proof.
  unfold Posix.p_lstat, Posix.p_unlink.
  destruct (Posix.comps m) as [| c k] eqn:Em; [left; reflexivity |].
  destruct (Posix.lookup (Posix.entries s) (c :: k)) as [st |]; [| left; reflexivity].
  destruct (st_isdir st); [left; reflexivity |]. cbn [fst]. apply del_only.
Qed.

Lemma rmdir_only (s : Posix.state) m q :
  Posix.p_lstat (fst (Posix.p_rmdir s m)) q = Posix.p_lstat s q
  \/ (Posix.p_lstat (fst (Posix.p_rmdir s m)) q = None
      /\ Posix.comps q = Posix.comps m).
Proof.
  unfold Posix.p_lstat, Posix.p_rmdir.
  destruct (Posix.comps m) as [| c k] eqn:Em; [left; reflexivity |].
  destruct (Posix.lookup (Posix.entries s) (c :: k)) as [st |]; [| left; reflexivity].
  destruct (st_isdir st); [| left; reflexivity].
  destruct (Posix.has_child (Posix.entries s) (c :: k)); [left; reflexivity |].
  cbn [fst]. apply del_only.
Qed.

Lemma branch_at_in uopt i b : branch_at uopt i = Done b -> In b (branches uopt).
Proof.
  unfold branch_at. destruct (i <? 0)%Z; [discriminate |].
  destruct (nth_error (branches uopt) (Z.to_nat i)) as [b' |] eqn:E; [| discriminate].
  intros [= <-]. eapply nth_error_In. exact E.
Qed.

Section Removal.

Variable PATHLEN_MAX : nat.
Variable HIDETAG : cstr.
Variable METADIR : cstr.
Variable uopt : uopt_t.
Variable upath : cstr.

(** [q] is the path of the marker of [upath] in one of the branches. *)
Local Notation "'marker_of_upath' q" :=
  (exists b wp, In b (branches uopt)
                /\ build_path PATHLEN_MAX [path b; METADIR; upath] = Done (0%Z, wp)
                /\ Posix.comps q = Posix.comps (wp ++ HIDETAG))
  (at level 10, q at level 9).

(** What a turn of the loop does to the host, when the run goes on. *)
Lemma remove_hidden_loop_turn n i (s s1 : Posix.state) ret :
  remove_hidden_loop PATHLEN_MAX HIDETAG METADIR uopt (S n) i upath s = Done (ret, s1) ->
  exists b r p,
    branch_at uopt i = Done b
    /\ build_path PATHLEN_MAX [path b; METADIR; upath] = Done (r, p)
    /\ ((ret = (- ENAMETOOLONG)%Z /\ s1 = s
         /\ (r <> 0%Z \/ PATHLEN_MAX < strlen p + strlen HIDETAG))
        \/ (r = 0%Z
            /\ exists s',
                remove_hidden_loop PATHLEN_MAX HIDETAG METADIR uopt n (i + 1) upath s'
                = Done (ret, s1)
                /\ (forall q, lstat s' q = lstat s q
                              \/ (lstat s' q = None
                                  /\ Posix.comps q = Posix.comps (p ++ HIDETAG)))
                /\ match lstat s' (p ++ HIDETAG) with
                   | Some st => st_isdir st = true
                   | None => True
                   end)).
Proof.
  cbn [remove_hidden_loop]. unfold BUILD_PATH. intros Hrun.
  destruct (branch_at uopt i) as [b | |] eqn:Eb; cbn [bind] in Hrun; try discriminate.
  destruct (build_path PATHLEN_MAX [path b; METADIR; upath]) as [[r p] | |] eqn:Ebp;
    cbn [bind] in Hrun; try discriminate.
  exists b, r, p. split; [first [reflexivity | assumption] |].
  split; [first [reflexivity | assumption] |].
  destruct (Z.eqb_spec r 0) as [-> | Hr]; cbn [negb] in Hrun.
  2:{ left. injection Hrun as <- <-. auto. }
  destruct (Nat.ltb_spec PATHLEN_MAX (strlen p + strlen HIDETAG)).
  { left. injection Hrun as <- <-. auto. }
  destruct (store_n PATHLEN_MAX (strlen p) (strlen HIDETAG + 1)); cbn [bind] in Hrun;
    try discriminate.
  right. split; [reflexivity |].
  unfold path_is_dir in Hrun.
  cbn [lstat unlink rmdir Posix.posix_host] in *.
  destruct (Posix.p_lstat s (p ++ HIDETAG)) as [st |] eqn:El.
  - destruct (st_isdir st) eqn:Ed.
    + exists (fst (Posix.p_rmdir s (p ++ HIDETAG))). split; [exact Hrun |].
      split; [intros q; apply rmdir_only |].
      destruct (rmdir_only s (p ++ HIDETAG) (p ++ HIDETAG)) as [E | [E _]]; rewrite E;
        [rewrite El; exact Ed | exact I].
    + exists (fst (Posix.p_unlink s (p ++ HIDETAG))). split; [exact Hrun |].
      split; [intros q; apply unlink_only |].
      revert El. unfold Posix.p_lstat, Posix.p_unlink.
      destruct (Posix.comps (p ++ HIDETAG)) as [| c k] eqn:Ek.
      * cbn [Posix.lookup]. intros [= <-]. discriminate.
      * intros El. rewrite El, Ed. cbn [fst Posix.del Posix.entries Posix.lookup].
        rewrite find_remove.
        destruct (Posix.key_eq_dec (c :: k) (c :: k)); [exact I | contradiction].
  - exists s. split; [exact Hrun |]. split; [intros q; left; reflexivity |].
    now rewrite El.
Qed.

(** The loop takes entries away only, and only markers of [upath]. *)
Lemma remove_hidden_loop_only n : forall i (s s1 : Posix.state) ret,
  remove_hidden_loop PATHLEN_MAX HIDETAG METADIR uopt n i upath s = Done (ret, s1) ->
  forall q, lstat s1 q = lstat s q \/ (lstat s1 q = None /\ marker_of_upath q).
Proof.
  induction n as [| n IH]; intros i s s1 ret Hrun q.
  - cbn [remove_hidden_loop] in Hrun. injection Hrun as _ <-. now left.
  - destruct (remove_hidden_loop_turn n i s s1 ret Hrun)
      as (b & r & p & Hb & Hbuild & [(_ & -> & _) | (-> & s' & Hrest & Hturn & _)]);
      [now left |].
    destruct (IH _ _ _ _ Hrest q) as [E | [E Hm]]; [| right; split; assumption].
    destruct (Hturn q) as [E' | [E' Hq]]; [left; congruence |].
    right. split; [congruence |].
    exists b, p. split; [now apply (branch_at_in uopt i) | split; assumption].
Qed.

End Removal.

(** X12.  [remove_hidden] takes entries away only, and only markers of the
    path: on the host model, after a run that returns, every path has the
    entry it had before, or it has none and names the marker of the union
    path in one of the branches. *)
Theorem remove_hidden_only_removes_markers :
  forall (PATHLEN_MAX : nat) (HIDETAG METADIR : cstr) (uopt : uopt_t)
         (s s1 : Posix.state) (upath : cstr) (maxbranch ret : Z) (q : cstr),
    remove_hidden PATHLEN_MAX HIDETAG METADIR uopt s upath maxbranch = Done (ret, s1) ->
    lstat s1 q = lstat s q
    \/ (lstat s1 q = None
        /\ exists b wp,
             In b (branches uopt)
             /\ build_path PATHLEN_MAX [path b; METADIR; upath] = Done (0%Z, wp)
             /\ Posix.comps q = Posix.comps (wp ++ HIDETAG)).
Proof.
  intros PATHLEN_MAX HIDETAG METADIR uopt s s1 upath maxbranch ret q.
  unfold remove_hidden. destruct (cow_enabled uopt); cbn [negb].
  - intros Hrun. exact (remove_hidden_loop_only _ _ _ _ _ _ _ _ _ _ Hrun q).
  - intros [= _ <-]. now left.
Qed.

Lemma remove_hidden_only_removes_markers_witness :
  exists s1,
    remove_hidden Mount.PATHLEN_MAX Mount.HIDETAG Mount.METADIR Mount.uopt
                  Mount.fs1 (str "/dir") 1 = Done (0%Z, s1)
    /\ lstat s1 (str "/ro/note.txt") = lstat Mount.fs1 (str "/ro/note.txt")
    /\ lstat s1 (str "/rw/.unionfs/dir_HIDDEN~") = None.
Proof.
  eexists. split; [vm_compute; reflexivity |].
  match goal with
  | |- lstat ?s1 _ = _ /\ _ =>
      destruct (remove_hidden_only_removes_markers
                  Mount.PATHLEN_MAX Mount.HIDETAG Mount.METADIR Mount.uopt
                  Mount.fs1 s1 (str "/dir") 1 0%Z (str "/ro/note.txt"))
        as [Hsame | [Hgone _]]; [vm_compute; reflexivity | | ]
  end.
  - split; [exact Hsame | reflexivity].
  - split; reflexivity.
Defined.

(* ================================================================== *)
(** * Further properties: a cleanup that removes nothing *)

Lemma unlink_fails_keeps (s : Posix.state) p :
  snd (Posix.p_unlink s p) = (-1)%Z ->
  Posix.entries (fst (Posix.p_unlink s p)) = Posix.entries s.
Proof.
  unfold Posix.p_unlink.
  destruct (Posix.comps p) as [| c k]; [reflexivity |].
  destruct (Posix.lookup (Posix.entries s) (c :: k)) as [st |]; [| reflexivity].
  destruct (st_isdir st); [reflexivity | discriminate].
Qed.

Lemma rmdir_fails_keeps (s : Posix.state) p :
  snd (Posix.p_rmdir s p) = (-1)%Z ->
  Posix.entries (fst (Posix.p_rmdir s p)) = Posix.entries s.
Proof.
  unfold Posix.p_rmdir.
  destruct (Posix.comps p) as [| c k]; [reflexivity |].
  destruct (Posix.lookup (Posix.entries s) (c :: k)) as [st |]; [| reflexivity].
  destruct (st_isdir st); [| reflexivity].
  destruct (Posix.has_child (Posix.entries s) (c :: k)); [reflexivity | discriminate].
Qed.

Lemma refused_keeps (s : Posix.state) (call : Posix.state * Z) q :
  (snd call = (-1)%Z -> Posix.entries (fst call) = Posix.entries s) ->
  Posix.p_lstat (Rofs.under (fst (Rofs.refused s call))) q = Posix.p_lstat s q.
Proof.
  intros Hfail. unfold Rofs.refused, Posix.p_lstat.
  destruct (Z.eqb_spec (snd call) (-1)) as [E | _]; cbn [fst Rofs.under].
  - now rewrite (Hfail E).
  - reflexivity.
Qed.

Section CleanupFrame.

Variable PATHLEN_MAX : nat.
Variable HIDETAG : cstr.
Variable METADIR : cstr.

Context {fsys : Type} {host : Host fsys}.

Hypothesis unlink_keeps : forall (s : fsys) p q, lstat (fst (unlink s p)) q = lstat s q.
Hypothesis rmdir_keeps : forall (s : fsys) p q, lstat (fst (rmdir s p)) q = lstat s q.

(** Where [unlink] and [rmdir] remove nothing the cleanup leaves every
    entry. *)
Lemma cleanup_keeps bs upath : forall (s : fsys) q,
  lstat (snd (cleanup PATHLEN_MAX HIDETAG METADIR bs upath s)) q = lstat s q.
Proof.
  induction bs as [| b bs IH]; intros s q; cbn [cleanup]; [reflexivity |].
  destruct (PATHLEN_MAX <=? length (marker_of HIDETAG METADIR b upath)); [reflexivity |].
  destruct (lstat s (marker_of HIDETAG METADIR b upath)) as [st |]; [| apply IH].
  destruct (st_isdir st); rewrite IH; [apply rmdir_keeps | apply unlink_keeps].
Qed.

End CleanupFrame.

(** X13.  Success is reported though nothing could be removed: on the host
    mounted read-only, with copy-on-write on, for a range 0 to [maxbranch]
    of branches that exist, whose roots are not empty and leave, joined
    with [METADIR], two bytes of a path buffer, and marker paths that fit in
    a path buffer, [remove_hidden] returns 0, and every entry that was
    there, the markers included, is still there. *)
Theorem remove_hidden_returns_0_when_nothing_is_removed :
  forall (PATHLEN_MAX : nat) (HIDETAG METADIR : cstr) (uopt : uopt_t)
         (s : Rofs.state) (upath : cstr) (maxbranch : Z),
    cow_enabled uopt = true ->
    (0 <= maxbranch < Z.of_nat (length (branches uopt)))%Z ->
    (forall b, In b (firstn (Z.to_nat (maxbranch + 1)) (branches uopt)) ->
       path b <> []
       /\ length (join (path b) METADIR) + 1 < PATHLEN_MAX
       /\ length (marker_of HIDETAG METADIR b upath) < PATHLEN_MAX) ->
    exists s1,
      remove_hidden PATHLEN_MAX HIDETAG METADIR uopt s upath maxbranch = Done (0%Z, s1)
      /\ forall q, lstat s1 q = lstat s q.
Proof.
  intros PATHLEN_MAX HIDETAG METADIR uopt s upath maxbranch Hcow Hrange Hin.
  set (bs := firstn (Z.to_nat (maxbranch + 1)) (branches uopt)) in *.
  exists (snd (cleanup PATHLEN_MAX HIDETAG METADIR bs upath s)). split.
  - rewrite (remove_hidden_cleanup PATHLEN_MAX HIDETAG METADIR uopt s upath maxbranch
               Hcow Hrange).
    + fold bs. f_equal. rewrite (surjective_pairing (cleanup _ _ _ bs upath s)) at 1.
      f_equal. rewrite cleanup_result.
      assert (Hnone : existsb (fun b => PATHLEN_MAX <=? length (marker_of HIDETAG METADIR b upath)) bs
                      = false).
      { destruct (existsb _ bs) eqn:E; [| reflexivity].
        apply existsb_exists in E as (b & Hb & Hlong).
        destruct (Hin b Hb) as (_ & _ & Hfit). apply Nat.leb_le in Hlong. lia. }
      now rewrite Hnone.
    + intros b Hb. destruct (Hin b Hb) as (Hne & Hroom & Hfit).
      repeat split; [exact Hne | exact Hroom | lia].
  - apply cleanup_keeps; intros s' p q; cbn [lstat unlink rmdir Rofs.rofs_host];
      apply refused_keeps; [apply unlink_fails_keeps | apply rmdir_fails_keeps].
Qed.

Lemma remove_hidden_returns_0_when_nothing_is_removed_witness :
  exists s1,
    remove_hidden Mount.PATHLEN_MAX Mount.HIDETAG Mount.METADIR Mount.uopt
                  {| Rofs.under := Mount.fs2 |} (str "/note.txt") 1
    = Done (0%Z, s1)
    /\ lstat s1 (str "/rw/.unionfs/note.txt_HIDDEN~") = Some Posix.new_file
    /\ lstat s1 (str "/ro/.unionfs/note.txt_HIDDEN~") = Some Posix.new_dir.
Proof.
  destruct (remove_hidden_returns_0_when_nothing_is_removed
              Mount.PATHLEN_MAX Mount.HIDETAG Mount.METADIR Mount.uopt
              {| Rofs.under := Mount.fs2 |} (str "/note.txt") 1)
    as (s1 & Hrun & Hkeep).
  - reflexivity.
  - simpl. lia.
  - intros b [<- | [<- | []]]; vm_compute; repeat split; (discriminate || lia).
  - exists s1. split; [exact Hrun |].
    split; rewrite Hkeep; reflexivity.
Defined.
